(** * ASCII Oracle: the command pipeline

    A shallow embedding of the command interpretation pipeline of the
    ASCII Oracle terminal, and the properties its specification states:

    - [frontend/src/utils/commandParser.ts]: [tokenize], [parseCommand],
      [isValidCommand];
    - the command executor ([executeCommand] and its handlers
      [executeUpload], [executeHologram], [executeSolve],
      [executeChemistry]);
    - the terminal component's [evaluateMath] and [calcMolarMass].

    Strings.  A JavaScript string is a sequence of UTF-16 code units.  The
    embedding uses [string], one [ascii] per code unit, so it covers the
    strings whose code units lie in U+0000..U+00FF; on that alphabet
    [trim] and [toLowerCase] are given exactly.

    Objects used as maps ([flags], the element tables) are finite maps
    from own property names to values.  What such an object inherits
    from [Object.prototype] is given where the code meets it: an
    assignment under the name [__proto__] stores nothing ([setFlag]),
    and a lookup under an inherited name finds the inherited value
    ([elementsOr]). *)

From stdpp Require Import gmap strings list.
From Stdlib Require Import Ascii NArith ZArith Floats.

Set Warnings "-inexact-float".

(** ** JavaScript string primitives *)

Module JS.

(** The characters that cannot be typed inside a literal. *)
Definition dquote : ascii := "034"%char.
Definition squote : ascii := "039"%char.
Definition newline : ascii := "010"%char.

(** A character as a string of length one, as [input[i]] is. *)
Definition str (c : ascii) : string := String c EmptyString.

(** Truthiness of a string: [if (s)] holds for every non-empty string. *)
Definition truthy (s : string) : bool :=
  match s with EmptyString => false | String _ _ => true end.

(** WhiteSpace and LineTerminator code units below U+0100: TAB, LF, VT,
    FF, CR, SP and NBSP. *)
Definition isWhiteSpace (c : ascii) : bool :=
  let n := N_of_ascii c in
  ((9 <=? n) && (n <=? 13) || (n =? 32) || (n =? 160))%N.

Fixpoint trimStart (s : string) : string :=
  match s with
  | EmptyString => EmptyString
  | String c s' => if isWhiteSpace c then trimStart s' else s
  end.

Fixpoint trimEnd (s : string) : string :=
  match s with
  | EmptyString => EmptyString
  | String c s' =>
      let t := trimEnd s' in
      if negb (truthy t) && isWhiteSpace c then EmptyString else String c t
  end.

(** [s.trim()] *)
Definition trim (s : string) : string := trimEnd (trimStart s).

(** Lower-casing of one code unit below U+0100: A-Z, and the upper-case
    letters U+00C0..U+00DE except the multiplication sign U+00D7. *)
Definition lowerChar (c : ascii) : ascii :=
  let n := N_of_ascii c in
  if ((65 <=? n) && (n <=? 90)
      || (192 <=? n) && (n <=? 222) && negb (n =? 215))%N
  then ascii_of_N (n + 32) else c.

(** [s.toLowerCase()] *)
Fixpoint toLowerCase (s : string) : string :=
  match s with
  | EmptyString => EmptyString
  | String c s' => String (lowerChar c) (toLowerCase s')
  end.

(** [s.startsWith(p)] *)
Fixpoint startsWith (p s : string) : bool :=
  match p, s with
  | EmptyString, _ => true
  | String _ _, EmptyString => false
  | String a p', String b s' => Ascii.eqb a b && startsWith p' s'
  end.

(** [s.slice(n)] for a non-negative [n]. *)
Fixpoint slice (n : nat) (s : string) : string :=
  match n, s with
  | O, _ => s
  | S _, EmptyString => EmptyString
  | S n', String _ s' => slice n' s'
  end.

(** [s.includes(c)] for a one-character needle. *)
Fixpoint includes (c : ascii) (s : string) : bool :=
  match s with
  | EmptyString => false
  | String a s' => Ascii.eqb a c || includes c s'
  end.

(** [s.split(c)] for a one-character separator: every piece between two
    separators, so the result always has at least one element. *)
Fixpoint split (c : ascii) (s : string) : list string :=
  match s with
  | EmptyString => [EmptyString]
  | String a s' =>
      if Ascii.eqb a c then EmptyString :: split c s'
      else match split c s' with
           | [] => [str a]
           | p :: ps => String a p :: ps
           end
  end.

(** Every character of [s] satisfies [p]. *)
Fixpoint allChars (p : ascii -> bool) (s : string) : bool :=
  match s with
  | EmptyString => true
  | String c s' => p c && allChars p s'
  end.

(** [xs.join(sep)] *)
Fixpoint join (sep : string) (xs : list string) : string :=
  match xs with
  | [] => EmptyString
  | [x] => x
  | x :: rest => x +:+ sep +:+ join sep rest
  end.

(** [xs.includes(x)] on an array of strings. *)
Definition arrayIncludes (x : string) (xs : list string) : bool :=
  bool_decide (x ∈ xs).

End JS.

(** ** commandParser.ts *)

(** A flag value is [string | boolean]; the parser only ever stores a
    string or [true]. *)
Inductive FlagValue : Type :=
  | FStr (s : string)
  | FBool (b : bool).

Record ParsedCommand : Type := mkParsed {
  command : string;
  args : list string;
  flags : gmap string FlagValue;
  raw : string
}.

(** *** tokenize *)

(** The four local variables of [tokenize]. *)
Record TokState : Type := mkTok {
  tokens : list string;
  current : string;
  inQuote : bool;
  quoteChar : string
}.

Definition tokInit : TokState :=
  {| tokens := []; current := EmptyString; inQuote := false;
     quoteChar := EmptyString |}.

Definition isQuote (char : ascii) : bool :=
  Ascii.eqb char JS.dquote || Ascii.eqb char JS.squote.

(** One iteration of the [for] loop, on the character [input[i]]. *)
Definition tokStep (st : TokState) (char : ascii) : TokState :=
  if isQuote char && negb (inQuote st) then
    {| tokens := tokens st; current := current st;
       inQuote := true; quoteChar := JS.str char |}
  else if String.eqb (JS.str char) (quoteChar st) && inQuote st then
    {| tokens := tokens st; current := current st;
       inQuote := false; quoteChar := EmptyString |}
  else if Ascii.eqb char " " && negb (inQuote st) then
    if JS.truthy (current st) then
      {| tokens := tokens st ++ [current st]; current := EmptyString;
         inQuote := inQuote st; quoteChar := quoteChar st |}
    else st
  else
    {| tokens := tokens st; current := current st +:+ JS.str char;
       inQuote := inQuote st; quoteChar := quoteChar st |}.

(** The whole [for] loop, from the state [st] over the characters of
    [input]. *)
Fixpoint tokScan (st : TokState) (input : string) : TokState :=
  match input with
  | EmptyString => st
  | String char rest => tokScan (tokStep st char) rest
  end.

(** The final [if (current) tokens.push(current)]. *)
Definition tokFlush (st : TokState) : list string :=
  if JS.truthy (current st) then tokens st ++ [current st] else tokens st.

Definition tokenize (input : string) : list string :=
  tokFlush (tokScan tokInit input).

(** *** parseCommand *)

(** [flags[name] = value], the value a string or a boolean.  [flags] is
    an object literal, and the map holds its own properties.  The
    assignment writes an own property under every name but [__proto__]:
    that name is an accessor which every object literal inherits, and
    whose setter ignores a value that is neither an object nor [null],
    so nothing is stored. *)
Definition setFlag (name : string) (value : FlagValue)
    (flags : gmap string FlagValue) : gmap string FlagValue :=
  if String.eqb name "__proto__" then flags else <[name := value]> flags.

(** [i + 1 < parts.length && !parts[i + 1].startsWith('-')]: the token
    after the cursor, when it exists and does not look like a flag. *)
Definition absorbable (parts : list string) (i : nat) : option string :=
  match parts !! (i + 1)%nat with
  | Some next => if negb (JS.startsWith "-" next) then Some next else None
  | None => None
  end.

(** The [while (i < parts.length)] loop.  Every iteration advances the
    cursor, so [length parts] iterations are always enough: [fuel] counts
    them.  The destructuring [[key, value]] of the split always finds two
    pieces, since the text has an equals sign ([split_two_pieces]); the
    other case of the [match] is never taken. *)
Fixpoint parseLoop (fuel : nat) (parts : list string) (i : nat)
    (args : list string) (flags : gmap string FlagValue)
    : list string * gmap string FlagValue :=
  match fuel with
  | O => (args, flags)
  | S fuel' =>
      match parts !! i with
      | None => (args, flags)
      | Some part =>
          if JS.startsWith "--" part then
            let flagPart := JS.slice 2 part in
            if JS.includes "=" flagPart then
              (* const [key, value] = flagPart.split('=') *)
              match JS.split "=" flagPart with
              | key :: value :: _ =>
                  parseLoop fuel' parts (i + 1) args
                    (setFlag key (FStr value) flags)
              | _ => parseLoop fuel' parts (i + 1) args flags
              end
            else
              match absorbable parts i with
              | Some next =>
                  parseLoop fuel' parts (i + 1 + 1) args
                    (setFlag flagPart (FStr next) flags)
              | None =>
                  parseLoop fuel' parts (i + 1) args
                    (setFlag flagPart (FBool true) flags)
              end
          else if JS.startsWith "-" part && (String.length part =? 2)%nat then
            let flag := JS.slice 1 part in
            match absorbable parts i with
            | Some next =>
                parseLoop fuel' parts (i + 1 + 1) args
                  (setFlag flag (FStr next) flags)
            | None =>
                parseLoop fuel' parts (i + 1) args
                  (setFlag flag (FBool true) flags)
            end
          else
            parseLoop fuel' parts (i + 1) (args ++ [part]) flags
      end
  end.

Definition parseCommand (input : string) : ParsedCommand :=
  let raw := JS.trim input in
  let parts := tokenize raw in
  match parts with
  | [] => {| command := EmptyString; args := []; flags := ∅; raw := raw |}
  | first :: _ =>
      let '(args, flags) := parseLoop (length parts) parts 1 [] ∅ in
      {| command := JS.toLowerCase first; args := args; flags := flags;
         raw := raw |}
  end.

(** The loop seen from the cursor: what it does with the tokens from the
    cursor on, [st] being the current [args] and [flags].  The [while]
    loop of [parseCommand] computes exactly this
    ([parseLoop_parseTokens]). *)
Fixpoint parseTokens (rest : list string)
    (st : list string * gmap string FlagValue)
    : list string * gmap string FlagValue :=
  match rest with
  | [] => st
  | part :: rest' =>
      if JS.startsWith "--" part then
        let flagPart := JS.slice 2 part in
        if JS.includes "=" flagPart then
          match JS.split "=" flagPart with
          | key :: value :: _ =>
              parseTokens rest' (st.1, setFlag key (FStr value) st.2)
          | _ => parseTokens rest' st
          end
        else
          match rest' with
          | next :: rest'' =>
              if negb (JS.startsWith "-" next) then
                parseTokens rest''
                  (st.1, setFlag flagPart (FStr next) st.2)
              else
                parseTokens rest'
                  (st.1, setFlag flagPart (FBool true) st.2)
          | [] =>
              parseTokens rest' (st.1, setFlag flagPart (FBool true) st.2)
          end
      else if JS.startsWith "-" part && (String.length part =? 2)%nat then
        let flag := JS.slice 1 part in
        match rest' with
        | next :: rest'' =>
            if negb (JS.startsWith "-" next) then
              parseTokens rest'' (st.1, setFlag flag (FStr next) st.2)
            else
              parseTokens rest' (st.1, setFlag flag (FBool true) st.2)
        | [] => parseTokens rest' (st.1, setFlag flag (FBool true) st.2)
        end
      else
        parseTokens rest' (st.1 ++ [part], st.2)
  end.

(** The flag tokens that carry no value of their own: a long flag whose
    name has no [=], and a short flag, a dash and one more character.
    The result is the flag's name. *)
Definition flagWithoutValue (part : string) : option string :=
  if JS.startsWith "--" part then
    if JS.includes "=" (JS.slice 2 part) then None
    else Some (JS.slice 2 part)
  else if JS.startsWith "-" part && (String.length part =? 2)%nat then
    Some (JS.slice 1 part)
  else None.

(** A token that begins with a dash and is neither a long flag nor a
    two-character short flag. *)
Definition dashButNoFlag (part : string) : bool :=
  JS.startsWith "-" part && negb (JS.startsWith "--" part)
  && negb (String.length part =? 2)%nat.

(** *** isValidCommand *)

Definition validCommands : list string :=
  ["help"; "draw"; "upload"; "hologram"; "solve"; "physics"; "chemistry";
   "search"; "clear"; "exit"; "about"; "version"].

Definition isValidCommand (command : string) : bool :=
  JS.arrayIncludes (JS.toLowerCase command) validCommands.

(** ** The command executor *)

Inductive ResultType : Type :=
  | TInfo | TSuccess | TError | TWarning | TAscii | TMath.

(** What the [output] field of a result holds.  It is declared a string
    and is one everywhere but in one place: [executeChemistry] can put
    there the value that its table inherits under a name, a function or
    an object; [Inherited name] stands for [Object.prototype[name]]. *)
Inductive Output : Type :=
  | Text (text : string)
  | Inherited (name : string).

Coercion Text : string >-> Output.

(** [CommandResult]; an optional field that is absent is [None]. *)
Record CommandResult : Type := mkResult {
  success : bool;
  output : Output;
  type : ResultType;
  clear : option bool;
  powerUp : option string;
  powerUpMessage : option string;
  triggerUpload : option string
}.

(** A result with no optional field. *)
Definition result (ok : bool) (out : string) (ty : ResultType)
    : CommandResult :=
  {| success := ok; output := out; type := ty; clear := None;
     powerUp := None; powerUpMessage := None; triggerUpload := None |}.

(** What the [ExecutorContext] callbacks write: [setHologramMode] and
    [setHologramData] ([{ type, text }]).  [triggerPowerUp] is never called
    by the executor. *)
Record Host : Type := mkHost {
  hologramMode : bool;
  hologramData : option (string * string)
}.

(** The result for a blank line: success, with an empty output. *)
Definition noOutput : CommandResult := result true EmptyString TInfo.

(** [args[i] || dflt]: the default replaces a missing argument and an
    empty one. *)
Definition orDefault (arg : option string) (dflt : string) : string :=
  match arg with
  | Some s => if JS.truthy s then s else dflt
  | None => dflt
  end.

(** A word between double quotes. *)
Definition quoted (s : string) : string :=
  JS.str JS.dquote +:+ s +:+ JS.str JS.dquote.

Definition nl : string := JS.str JS.newline.

(** *** executeUpload *)

Definition executeUpload (args : list string) : CommandResult :=
  let type := orDefault (args !! 0%nat) "image" in
  if negb (String.eqb type "image") && negb (String.eqb type "video") then
    result false ("Usage: upload image" +:+ nl +:+ "       upload video")
      TError
  else
    {| success := true;
       output := "Opening " +:+ type
                 +:+ " picker... Select a file to convert to ASCII.";
       type := TInfo; clear := None; powerUp := None;
       powerUpMessage := None; triggerUpload := Some type |}.

(** *** executeHologram *)

Definition validTypes : list string :=
  ["cube"; "sphere"; "text"; "particles"; "wave"; "dna"].

Definition executeHologram (args : list string) (host : Host)
    : CommandResult * Host :=
  let type := orDefault (args !! 0%nat) "cube" in
  if negb (JS.arrayIncludes type validTypes) then
    (result false ("Invalid hologram type: " +:+ type +:+ nl +:+ nl
                   +:+ "Available: " +:+ JS.join ", " validTypes) TError,
     host)
  else
    ({| success := true;
        output := "Entering 3D mode: " +:+ type +:+ nl
                  +:+ "Press ESC or type " +:+ quoted "exit"
                  +:+ " to return.";
        type := TInfo; clear := None; powerUp := Some "mushroom";
        powerUpMessage := Some "3D Mode Activated!";
        triggerUpload := None |},
     {| hologramMode := true;
        hologramData := Some (type, orDefault (args !! 1%nat) "HELLO") |}).

(** *** executeChemistry *)

(** The [elements] table of the handler: its own properties. *)
Definition elements : gmap string string :=
  list_to_map
    [("h", "Hydrogen (H) - Atomic #1, Mass: 1.008");
     ("he", "Helium (He) - Atomic #2, Mass: 4.003");
     ("c", "Carbon (C) - Atomic #6, Mass: 12.011");
     ("n", "Nitrogen (N) - Atomic #7, Mass: 14.007");
     ("o", "Oxygen (O) - Atomic #8, Mass: 15.999");
     ("fe", "Iron (Fe) - Atomic #26, Mass: 55.845");
     ("au", "Gold (Au) - Atomic #79, Mass: 196.967");
     ("ag", "Silver (Ag) - Atomic #47, Mass: 107.868")].

Definition chemistryHelp : string :=
  "CHEMISTRY Tools" +:+ nl +:+ nl
  +:+ "Available commands:" +:+ nl
  +:+ "  chemistry element <symbol>   Element info" +:+ nl
  +:+ "  chemistry molar <formula>    Molar mass" +:+ nl +:+ nl
  +:+ "Example: chemistry element Fe".

Definition chemistryInvalid : string :=
  "Invalid chemistry command. Type " +:+ quoted "chemistry" +:+ " for help.".

(** The names in lower case that an object literal inherits from
    [Object.prototype]; the other inherited names ([toString],
    [hasOwnProperty], ...) have a capital letter, and the handler looks a
    symbol up in lower case. *)
Definition inheritedNames : list string := ["constructor"; "__proto__"].

(** [elements[el] || fallback]: the entry of the table when [el] is one
    of its own properties (every entry is a non-empty string, so it is
    truthy); the inherited value, a function or an object and so truthy
    too, when [el] is an inherited name; the fallback otherwise. *)
Definition elementsOr (el : string) (fallback : string) : Output :=
  match elements !! el with
  | Some info => Text info
  | None =>
      if JS.arrayIncludes el inheritedNames then Inherited el
      else Text fallback
  end.

Definition executeChemistry (args : list string) : CommandResult :=
  match args with
  | [] => result true chemistryHelp TInfo
  | arg0 :: _ =>
      let subCmd := JS.toLowerCase arg0 in
      match args !! 1%nat with
      | Some arg1 =>
          if String.eqb subCmd "element" && JS.truthy arg1 then
            let el := JS.toLowerCase arg1 in
            {| success := true;
               output :=
                 elementsOr el
                   ("Element " +:+ quoted arg1 +:+ " not in database.");
               type := TInfo; clear := None; powerUp := None;
               powerUpMessage := None; triggerUpload := None |}
          else result false chemistryInvalid TError
      | None => result false chemistryInvalid TError
      end
  end.

(** *** executeSolve and executeCommand *)

(** The character class of the fallback's
    [expression.replace(/[^0-9+\-*/().sqrt\s]/g, '')]: what is kept. *)
Definition isDigit (c : ascii) : bool :=
  let n := N_of_ascii c in ((48 <=? n) && (n <=? 57))%N.

Definition solveKeeps (c : ascii) : bool :=
  isDigit c || JS.includes c "+-*/().sqrt" || JS.isWhiteSpace c.

Fixpoint keepChars (keep : ascii -> bool) (s : string) : string :=
  match s with
  | EmptyString => EmptyString
  | String c s' =>
      if keep c then String c (keepChars keep s') else keepChars keep s'
  end.

Definition sanitize (expression : string) : string :=
  keepChars solveKeeps expression.

Section Executor.

(** The backend call of [executeSolve]: [Some r] when
    [fetch('/api/math/solve')] answers with [response.ok] and a JSON body
    whose [result] prints as [r]; [None] when the response is not ok or
    anything in the [try] block throws. *)
Variable mathBackend : string -> option string.

(** The engine's values, [Function(body)()] ([None] when compiling or
    running the body throws) and the conversion of a value to a string
    that a template literal applies. *)
Variable JSValue : Type.
Variable runFunction : string -> option JSValue.
Variable toStr : JSValue -> string.

(** The handlers the properties below do not look into. *)
Variable executeHelp : list string -> CommandResult.
Variable executeDraw : list string -> gmap string FlagValue -> CommandResult.
Variable executePhysics : list string -> CommandResult.
Variable executeSearch : list string -> CommandResult.
Variable executeAbout : CommandResult.

(** The body handed to [Function]. *)
Definition strictReturn (code : string) : string :=
  quoted "use strict" +:+ "; return (" +:+ code +:+ ")".

(** The fallback of [executeSolve], after the backend failed. *)
Definition solveFallback (expression : string) : CommandResult :=
  let sanitized := sanitize expression in
  match runFunction (strictReturn sanitized) with
  | Some r => result true (expression +:+ " = " +:+ toStr r) TInfo
  | None => result false ("Could not evaluate: " +:+ expression) TError
  end.

Definition executeSolve (args : list string) : CommandResult :=
  if (length args =? 0)%nat then
    result false
      ("Usage: solve <expression>" +:+ nl +:+ "Example: solve 2+2") TError
  else
    let expression := JS.join " " args in
    match mathBackend expression with
    | Some r =>
        result true
          ("Expression: " +:+ expression +:+ nl +:+ "Result: " +:+ r)
          TInfo
    | None => solveFallback expression
    end.

Definition unknownCommand (command : string) : string :=
  "Unknown command: " +:+ command +:+ nl
  +:+ "Type " +:+ quoted "help" +:+ " for available commands.".

(** [executeCommand]; the [switch] compares the command as it is. *)
Definition executeCommand (parsed : ParsedCommand) (host : Host)
    : CommandResult * Host :=
  let command := command parsed in
  let args := args parsed in
  let flags := flags parsed in
  if negb (JS.truthy command) then (noOutput, host)
  else if negb (isValidCommand command) then
    (result false (unknownCommand command) TError, host)
  else if String.eqb command "help" then (executeHelp args, host)
  else if String.eqb command "draw" then (executeDraw args flags, host)
  else if String.eqb command "upload" then (executeUpload args, host)
  else if String.eqb command "hologram" then executeHologram args host
  else if String.eqb command "solve" then (executeSolve args, host)
  else if String.eqb command "physics" then (executePhysics args, host)
  else if String.eqb command "chemistry" then (executeChemistry args, host)
  else if String.eqb command "search" then (executeSearch args, host)
  else if String.eqb command "clear" then
    ({| success := true; output := EmptyString; type := TInfo;
        clear := Some true; powerUp := None; powerUpMessage := None;
        triggerUpload := None |},
     host)
  else if String.eqb command "exit" then
    (result true "Exited 3D mode" TInfo,
     {| hologramMode := false; hologramData := hologramData host |})
  else if String.eqb command "about" then (executeAbout, host)
  else if String.eqb command "version" then
    (result true "ASCII Oracle v1.0.0" TInfo, host)
  else (result false "Command not implemented" TError, host).

End Executor.

(** ** The terminal component: evaluateMath and calcMolarMass *)

Module Terminal.

Definition isUpper (c : ascii) : bool :=
  let n := N_of_ascii c in ((65 <=? n) && (n <=? 90))%N.

Definition isLower (c : ascii) : bool :=
  let n := N_of_ascii c in ((97 <=? n) && (n <=? 122))%N.

(** *** Global regular-expression replacement

    [s.replace(/re/g, ...)]: at each position the expression is tried;
    a match is replaced and the scan goes on after it, otherwise the
    character is copied.  A matcher gives, for the text at the current
    position, the replacement and the (positive) length of the match;
    [skip] counts the characters of the last match still to pass. *)
Definition Matcher : Type := string -> option (string * nat).

Fixpoint replaceAll (m : Matcher) (skip : nat) (s : string) : string :=
  match s with
  | EmptyString => EmptyString
  | String c s' =>
      match skip with
      | S k => replaceAll m k s'
      | O =>
          match m s with
          | Some (repl, len) => repl +:+ replaceAll m (len - 1) s'
          | None => String c (replaceAll m 0 s')
          end
      end
  end.

(** The longest prefix without the character [stop], and what follows. *)
Fixpoint runUntil (stop : ascii) (s : string) : string * string :=
  match s with
  | EmptyString => (EmptyString, EmptyString)
  | String c s' =>
      if Ascii.eqb c stop then (EmptyString, s)
      else let '(run, rest) := runUntil stop s' in (String c run, rest)
  end.

(** [/name\(([^)]+)\)/] replaced by [repl($1)]. *)
Definition callMatcher (name repl : string) : Matcher := fun s =>
  if JS.startsWith (name +:+ "(") s then
    let '(body, rest) := runUntil ")" (JS.slice (String.length name + 1) s) in
    if JS.truthy body && JS.startsWith ")" rest then
      Some (repl +:+ "(" +:+ body +:+ ")",
            String.length name + 1 + String.length body + 1)%nat
    else None
  else None.

(** [/pow\(([^,]+),([^)]+)\)/] replaced by [Math.pow($1,$2)]. *)
Definition powMatcher : Matcher := fun s =>
  if JS.startsWith "pow(" s then
    let '(a, rest) := runUntil "," (JS.slice 4 s) in
    if JS.truthy a && JS.startsWith "," rest then
      let '(b, rest') := runUntil ")" (JS.slice 1 rest) in
      if JS.truthy b && JS.startsWith ")" rest' then
        Some ("Math.pow(" +:+ a +:+ "," +:+ b +:+ ")",
              4 + String.length a + 1 + String.length b + 1)%nat
      else None
    else None
  else None.

(** A literal replaced by a literal. *)
Definition wordMatcher (word repl : string) : Matcher := fun s =>
  if JS.startsWith word s then Some (repl, String.length word) else None.

(** [/e(?![a-z])/] replaced by [Math.E]. *)
Definition eMatcher : Matcher := fun s =>
  match s with
  | String c rest =>
      if Ascii.eqb c "e" then
        match rest with
        | String d _ => if isLower d then None else Some ("Math.E", 1%nat)
        | EmptyString => Some ("Math.E", 1%nat)
        end
      else None
  | EmptyString => None
  end.

(** [/Math\.(sqrt|sin|cos|tan|log10|log|abs|pow|PI|E)/] removed; the
    alternatives are tried in this order. *)
Definition mathNames : list string :=
  ["sqrt"; "sin"; "cos"; "tan"; "log10"; "log"; "abs"; "pow"; "PI"; "E"].

Definition mathNameMatcher : Matcher := fun s =>
  if JS.startsWith "Math." s then
    match filter (fun name => JS.startsWith name (JS.slice 5 s) = true)
                 mathNames with
    | name :: _ => Some (EmptyString, 5 + String.length name)%nat
    | [] => None
    end
  else None.

(** The substitutions of [evaluateMath], in the order of the source. *)
Definition substitute (cleaned : string) : string :=
  let cleaned := replaceAll (callMatcher "sqrt" "Math.sqrt") 0 cleaned in
  let cleaned := replaceAll (callMatcher "sin" "Math.sin") 0 cleaned in
  let cleaned := replaceAll (callMatcher "cos" "Math.cos") 0 cleaned in
  let cleaned := replaceAll (callMatcher "tan" "Math.tan") 0 cleaned in
  let cleaned := replaceAll (callMatcher "log" "Math.log10") 0 cleaned in
  let cleaned := replaceAll (callMatcher "ln" "Math.log") 0 cleaned in
  let cleaned := replaceAll (callMatcher "abs" "Math.abs") 0 cleaned in
  let cleaned := replaceAll powMatcher 0 cleaned in
  let cleaned := replaceAll (wordMatcher "pi" "Math.PI") 0 cleaned in
  let cleaned := replaceAll eMatcher 0 cleaned in
  replaceAll (wordMatcher "^" "**") 0 cleaned.

(** The class of [/^[0-9+\-*/().Math,\s]+$/]. *)
Definition safeChar (c : ascii) : bool :=
  isDigit c || JS.includes c "+-*/().Math," || JS.isWhiteSpace c.

(** The test before the evaluation: the text left after removing the
    [Math.] names is non-empty and made of safe characters only. *)
Definition passesSafeTest (cleaned : string) : bool :=
  let residue := replaceAll mathNameMatcher 0 cleaned in
  JS.truthy residue && JS.allChars safeChar residue.

(** [text.replace(/\.?0+$/, '')]: the zeros at the end are dropped, and
    the point before them if there is one; a text that does not end in a
    zero is left as it is. *)
Fixpoint dropEndZeros (s : string) : string :=
  match s with
  | EmptyString => EmptyString
  | String c s' =>
      let t := dropEndZeros s' in
      if negb (JS.truthy t) && Ascii.eqb c "0" then EmptyString
      else String c t
  end.

Fixpoint dropEndPoint (s : string) : string :=
  match s with
  | EmptyString => EmptyString
  | String c s' =>
      if negb (JS.truthy s') && Ascii.eqb c "." then EmptyString
      else String c (dropEndPoint s')
  end.

Definition stripZeros (s : string) : string :=
  let body := dropEndZeros s in
  if String.eqb body s then s else dropEndPoint body.

Section Engine.

(** The engine: its values, [Function(body)()] ([None] when it
    throws), [typeof v === 'number'], [Number.isInteger(v)],
    [String(v)] (which is [v.toString()] on a number) and
    [v.toFixed(6)]. *)
Variable JSValue : Type.
Variable runFunction : string -> option JSValue.
Variable isNumber : JSValue -> bool.
Variable isInteger : JSValue -> bool.
Variable toStr : JSValue -> string.
Variable toFixed6 : JSValue -> string.

Definition formatResult (v : JSValue) : string :=
  if isNumber v then
    if isInteger v then toStr v else stripZeros (toFixed6 v)
  else toStr v.

Definition evaluateMath (expr : string) : string :=
  let cleaned := substitute (JS.toLowerCase (JS.trim expr)) in
  if negb (passesSafeTest cleaned) then "Invalid expression"
  else
    match runFunction (quoted "use strict" +:+ "; return (" +:+ cleaned
                       +:+ ")") with
    | Some v => formatResult v
    | None => "Error: Could not evaluate"
    end.

End Engine.

(** *** calcMolarMass *)

Record Element : Type := mkElement {
  name : string;
  number : N;
  mass : float;
  category : string
}.

Definition ELEMENTS : gmap string Element :=
  list_to_map
    [("h", mkElement "Hydrogen" 1 1.008 "Nonmetal");
     ("he", mkElement "Helium" 2 4.003 "Noble Gas");
     ("li", mkElement "Lithium" 3 6.941 "Alkali Metal");
     ("be", mkElement "Beryllium" 4 9.012 "Alkaline Earth");
     ("b", mkElement "Boron" 5 10.81 "Metalloid");
     ("c", mkElement "Carbon" 6 12.011 "Nonmetal");
     ("n", mkElement "Nitrogen" 7 14.007 "Nonmetal");
     ("o", mkElement "Oxygen" 8 15.999 "Nonmetal");
     ("f", mkElement "Fluorine" 9 18.998 "Halogen");
     ("ne", mkElement "Neon" 10 20.18 "Noble Gas");
     ("na", mkElement "Sodium" 11 22.99 "Alkali Metal");
     ("mg", mkElement "Magnesium" 12 24.305 "Alkaline Earth");
     ("al", mkElement "Aluminum" 13 26.982 "Post-transition");
     ("si", mkElement "Silicon" 14 28.086 "Metalloid");
     ("p", mkElement "Phosphorus" 15 30.974 "Nonmetal");
     ("s", mkElement "Sulfur" 16 32.065 "Nonmetal");
     ("cl", mkElement "Chlorine" 17 35.453 "Halogen");
     ("ar", mkElement "Argon" 18 39.948 "Noble Gas");
     ("k", mkElement "Potassium" 19 39.098 "Alkali Metal");
     ("ca", mkElement "Calcium" 20 40.078 "Alkaline Earth");
     ("fe", mkElement "Iron" 26 55.845 "Transition Metal");
     ("cu", mkElement "Copper" 29 63.546 "Transition Metal");
     ("zn", mkElement "Zinc" 30 65.38 "Transition Metal");
     ("ag", mkElement "Silver" 47 107.868 "Transition Metal");
     ("au", mkElement "Gold" 79 196.967 "Transition Metal");
     ("pb", mkElement "Lead" 82 207.2 "Post-transition");
     ("u", mkElement "Uranium" 92 238.029 "Actinide")].

(** The longest prefix of decimal digits. *)
Fixpoint digitsPrefix (s : string) : string :=
  match s with
  | EmptyString => EmptyString
  | String c s' => if isDigit c then String c (digitsPrefix s') else EmptyString
  end.

(** The successive matches in [s] of the global regular expression of
    [calcMolarMass], each as its two captured groups: [[A-Z][a-z]?], a
    capital letter with the lower-case letter after it if there is one,
    then the decimal digits that follow, possibly none.  [skip] counts
    the characters of the last match still to pass. *)
Fixpoint formulaMatches (skip : nat) (s : string) : list (string * string) :=
  match s with
  | EmptyString => []
  | String c s' =>
      match skip with
      | S k => formulaMatches k s'
      | O =>
          if isUpper c then
            let low :=
              match s' with
              | String d _ => if isLower d then JS.str d else EmptyString
              | EmptyString => EmptyString
              end in
            let digits := digitsPrefix (JS.slice (String.length low) s') in
            (String c low, digits)
              :: formulaMatches (String.length low + String.length digits) s'
          else formulaMatches 0 s'
      end
  end.

(** The value of a string of decimal digits. *)
Definition digitValue (c : ascii) : Z := Z.of_N (N_of_ascii c - 48).

Fixpoint decimalValue (acc : Z) (digits : string) : Z :=
  match digits with
  | EmptyString => acc
  | String c rest => decimalValue (10 * acc + digitValue c) rest
  end.

(** [parseInt(digits)] on a non-empty string of decimal digits: the
    double nearest to its value. *)
Definition parseInt (digits : string) : float :=
  SF2Prim (SpecFloat.binary_normalize prec emax (decimalValue 0 digits) 0 false).

(** One turn of the [while] loop over the matches. *)
Definition addElement (mass : float) (m : string * string) : float :=
  let symbol := JS.toLowerCase (fst m) in
  let count := if JS.truthy (snd m) then parseInt (snd m) else 1%float in
  match ELEMENTS !! symbol with
  | Some el => (mass + Terminal.mass el * count)%float
  | None => mass
  end.

Definition calcMolarMass (formula : string) : float :=
  fold_left addElement (formulaMatches 0 formula) 0%float.

End Terminal.

(** ** commandParser.ts: characters and tokens without quoting *)

(** A character that is not a quote character, and one that is neither a
    quote character nor a space. *)
Definition notQuote (c : ascii) : bool := negb (isQuote c).

Definition plainChar (c : ascii) : bool :=
  negb (isQuote c) && negb (Ascii.eqb c " ").

(** A token as typed without quoting: not empty, with no space and no
    quote character. *)
Definition plainToken (tok : string) : bool :=
  JS.truthy tok && JS.allChars plainChar tok.

(** A text that does not begin with whitespace. *)
Definition startsClean (s : string) : bool :=
  match s with
  | EmptyString => true
  | String c _ => negb (JS.isWhiteSpace c)
  end.

(** The states of [tokenize] on a text without quote characters: outside
    quotes, the tokens and the token being built plain. *)
Definition plainState (st : TokState) : Prop :=
  inQuote st = false ∧ quoteChar st = EmptyString
  ∧ Forall (λ tok, plainToken tok = true) (tokens st)
  ∧ JS.allChars plainChar (current st) = true.

(** ** commandParser.ts: getSuggestions *)

(** The [commands] table of [getSuggestions]. *)
Definition commands : list string :=
  ["help"; "draw cat"; "draw heart --animate"; "draw rainbow";
   "upload image"; "upload video"; "hologram cube"; "hologram sphere";
   "hologram text " +:+ quoted "HELLO"; "solve integral x^2 dx";
   "solve equation x^2+5x+6=0";
   "physics projectile --velocity 20 --angle 45";
   "chemistry balance H2+O2->H2O"; "search mario ascii art"; "clear";
   "exit"].

Definition getSuggestions (partial : string) : list string :=
  filter (λ cmd,
            JS.startsWith (JS.toLowerCase partial) (JS.toLowerCase cmd) = true)
         commands.

(** ** The command executor: executePhysics and executeSearch *)

Module Handlers.

(** [s.includes(needle)] for a string needle. *)
Fixpoint includesStr (needle s : string) : bool :=
  JS.startsWith needle s
  || match s with
     | EmptyString => false
     | String _ s' => includesStr needle s'
     end.

Definition physicsHelp : string :=
  "PHYSICS Calculator" +:+ nl +:+ nl
  +:+ "Available calculations:" +:+ nl
  +:+ "  physics projectile <velocity> <angle>" +:+ nl
  +:+ "  physics freefall <height>" +:+ nl
  +:+ "  physics momentum <mass> <velocity>" +:+ nl +:+ nl
  +:+ "Example: physics projectile 20 45".

Definition physicsInvalid : string :=
  "Invalid physics calculation. Type " +:+ quoted "physics" +:+ " for help.".

Section Physics.

(** The two reports, as texts computed from the numeric arguments as
    they were typed ([parseFloat], the floating-point formulas and
    [toFixed(2)]). *)
Variable projectileReport : string -> string -> string.
Variable freefallReport : string -> string.

Definition executePhysics (args : list string) : CommandResult :=
  match args with
  | [] => result true physicsHelp TInfo
  | arg0 :: _ =>
      let calcType := JS.toLowerCase arg0 in
      if String.eqb calcType "projectile" && (3 <=? length args)%nat then
        result true
          (projectileReport (nth 1 args EmptyString) (nth 2 args EmptyString))
          TInfo
      else if String.eqb calcType "freefall" && (2 <=? length args)%nat then
        result true (freefallReport (nth 1 args EmptyString)) TInfo
      else result false physicsInvalid TError
  end.

End Physics.

Section Search.

(** The web search: [Some output] when [fetch('/api/search/web')] answers
    with [response.ok] and at least one result, [output] being the text
    built from the first result; [None] when it does not, or when
    anything in the [try] block throws. *)
Variable webSearch : string -> option string.

(** [Object.keys(asciiArtLibrary)]. *)
Variable artNames : list string.

Definition executeSearch (args : list string) : CommandResult :=
  if (length args =? 0)%nat then
    result false ("Usage: search <query>" +:+ nl +:+ "Example: search dragon")
      TError
  else
    let query := JS.join " " args in
    match webSearch query with
    | Some output => result true output TInfo
    | None =>
        let found :=
          filter (λ name, includesStr (JS.toLowerCase query) name = true)
                 artNames in
        match found with
        | first :: _ =>
            result true
              ("Found in local library: " +:+ JS.join ", " found +:+ nl +:+ nl
               +:+ "Use " +:+ quoted ("draw " +:+ first) +:+ " to display.")
              TInfo
        | [] =>
            result true
              ("No results for " +:+ quoted query +:+ ". Try "
               +:+ quoted "draw --list" +:+ " for local art.")
              TInfo
        end
    end.

End Search.

End Handlers.

(** ** useAppStore.ts: the application store *)

Module Store.

(** The last [n] elements: [xs.slice(-n)] for a positive [n]. *)
Definition lastN {A : Type} (n : nat) (xs : list A) : list A :=
  drop (length xs - n) xs.

Section State.

(** The hologram description ([HologramData]) is stored and returned as
    it is. *)
Variable HologramData : Type.

Record AppState : Type := mkState {
  commandHistory : list string;
  outputHistory : list string;
  hologramMode : bool;
  hologramData : option HologramData;
  powerUp : option (string * string);
  soundEnabled : bool;
  animationsEnabled : bool
}.

Definition initialState : AppState :=
  {| commandHistory := []; outputHistory := []; hologramMode := false;
     hologramData := None; powerUp := None; soundEnabled := true;
     animationsEnabled := true |}.

Definition addCommand (cmd : string) (state : AppState) : AppState :=
  {| commandHistory := lastN 100 (commandHistory state ++ [cmd]);
     outputHistory := outputHistory state;
     hologramMode := hologramMode state;
     hologramData := hologramData state; powerUp := powerUp state;
     soundEnabled := soundEnabled state;
     animationsEnabled := animationsEnabled state |}.

Definition addOutput (output : string) (state : AppState) : AppState :=
  {| commandHistory := commandHistory state;
     outputHistory := lastN 500 (outputHistory state ++ [output]);
     hologramMode := hologramMode state;
     hologramData := hologramData state; powerUp := powerUp state;
     soundEnabled := soundEnabled state;
     animationsEnabled := animationsEnabled state |}.

Definition clearHistory (state : AppState) : AppState :=
  {| commandHistory := []; outputHistory := [];
     hologramMode := hologramMode state;
     hologramData := hologramData state; powerUp := powerUp state;
     soundEnabled := soundEnabled state;
     animationsEnabled := animationsEnabled state |}.

Definition setHologramMode (mode : bool) (state : AppState) : AppState :=
  {| commandHistory := commandHistory state;
     outputHistory := outputHistory state; hologramMode := mode;
     hologramData := hologramData state; powerUp := powerUp state;
     soundEnabled := soundEnabled state;
     animationsEnabled := animationsEnabled state |}.

Definition setHologramData (data : option HologramData) (state : AppState)
    : AppState :=
  {| commandHistory := commandHistory state;
     outputHistory := outputHistory state;
     hologramMode := match data with Some _ => true | None => false end;
     hologramData := data; powerUp := powerUp state;
     soundEnabled := soundEnabled state;
     animationsEnabled := animationsEnabled state |}.

Definition triggerPowerUp (type message : string) (state : AppState)
    : AppState :=
  {| commandHistory := commandHistory state;
     outputHistory := outputHistory state;
     hologramMode := hologramMode state;
     hologramData := hologramData state; powerUp := Some (type, message);
     soundEnabled := soundEnabled state;
     animationsEnabled := animationsEnabled state |}.

Definition clearPowerUp (state : AppState) : AppState :=
  {| commandHistory := commandHistory state;
     outputHistory := outputHistory state;
     hologramMode := hologramMode state;
     hologramData := hologramData state; powerUp := None;
     soundEnabled := soundEnabled state;
     animationsEnabled := animationsEnabled state |}.

Definition toggleSound (state : AppState) : AppState :=
  {| commandHistory := commandHistory state;
     outputHistory := outputHistory state;
     hologramMode := hologramMode state;
     hologramData := hologramData state; powerUp := powerUp state;
     soundEnabled := negb (soundEnabled state);
     animationsEnabled := animationsEnabled state |}.

Definition toggleAnimations (state : AppState) : AppState :=
  {| commandHistory := commandHistory state;
     outputHistory := outputHistory state;
     hologramMode := hologramMode state;
     hologramData := hologramData state; powerUp := powerUp state;
     soundEnabled := soundEnabled state;
     animationsEnabled := negb (animationsEnabled state) |}.

(** The actions of the store, and a run of them. *)
Inductive Action : Type :=
  | AddCommand (cmd : string)
  | AddOutput (output : string)
  | ClearHistory
  | SetHologramMode (mode : bool)
  | SetHologramData (data : option HologramData)
  | TriggerPowerUp (type message : string)
  | ClearPowerUp
  | ToggleSound
  | ToggleAnimations.

Definition dispatch (state : AppState) (action : Action) : AppState :=
  match action with
  | AddCommand cmd => addCommand cmd state
  | AddOutput output => addOutput output state
  | ClearHistory => clearHistory state
  | SetHologramMode mode => setHologramMode mode state
  | SetHologramData data => setHologramData data state
  | TriggerPowerUp type message => triggerPowerUp type message state
  | ClearPowerUp => clearPowerUp state
  | ToggleSound => toggleSound state
  | ToggleAnimations => toggleAnimations state
  end.

Definition run (actions : list Action) (state : AppState) : AppState :=
  fold_left dispatch actions state.

End State.

End Store.

(** ** The terminal component: the key and paste handlers *)

Module Prompt.

(** What the handlers read of a key event: [domEvent.key], the modifier
    keys, and the [key] text that the terminal reports. *)
Record KeyEvent : Type := mkKey {
  domKey : string;
  key : string;
  altKey : bool;
  ctrlKey : bool;
  metaKey : bool
}.

(** What the handlers do besides updating their references, in order:
    [term.writeln], [term.write], the call of the terminal's
    [executeCommand], [printPrompt] and [setHologramMode(false)]. *)
Inductive Effect : Type :=
  | Writeln (text : string)
  | Write (text : string)
  | Execute (cmd : string)
  | PrintPrompt
  | HologramOff.

(** [inputRef], [historyRef] and [historyIndexRef]. *)
Record Refs : Type := mkRefs {
  input : string;
  history : list string;
  historyIndex : Z
}.

Definition initialRefs : Refs :=
  {| input := EmptyString; history := []; historyIndex := (-1)%Z |}.

(** Backspace, space, backspace: what erases one character on screen. *)
Definition eraseOne : string :=
  String "008" (String " " (String "008" EmptyString)).

(** [clearLine]: one erasure per character of the input line. *)
Definition clearLine (input : string) : list Effect :=
  repeat (Write eraseOne) (String.length input).

(** [s.slice(0, -1)] *)
Fixpoint dropLast (s : string) : string :=
  match s with
  | EmptyString => EmptyString
  | String c s' =>
      match s' with
      | EmptyString => EmptyString
      | String _ _ => String c (dropLast s')
      end
  end.

(** [historyRef.current[i]]; the handlers only read it with [i] in range
    ([onKey_keeps_index_in_range]). *)
Definition historyAt (history : list string) (i : Z) : string :=
  nth (Z.to_nat i) history EmptyString.

Definition onKey (ev : KeyEvent) (refs : Refs) : Refs * list Effect :=
  let len := Z.of_nat (length (history refs)) in
  if String.eqb (domKey ev) "Enter" then
    let cmd := JS.trim (input refs) in
    if JS.truthy cmd then
      ({| input := EmptyString; history := history refs ++ [cmd];
          historyIndex := Z.of_nat (length (history refs ++ [cmd])) |},
       [Writeln EmptyString; Execute cmd])
    else
      ({| input := EmptyString; history := history refs;
          historyIndex := historyIndex refs |},
       [Writeln EmptyString; PrintPrompt])
  else if String.eqb (domKey ev) "Backspace" then
    if (0 <? String.length (input refs))%nat then
      ({| input := dropLast (input refs); history := history refs;
          historyIndex := historyIndex refs |},
       [Write eraseOne])
    else (refs, [])
  else if String.eqb (domKey ev) "ArrowUp" then
    if ((0 <? len) && (0 <? historyIndex refs))%Z then
      let index := (historyIndex refs - 1)%Z in
      let line := historyAt (history refs) index in
      ({| input := line; history := history refs; historyIndex := index |},
       clearLine (input refs) ++ [Write line])
    else (refs, [])
  else if String.eqb (domKey ev) "ArrowDown" then
    if (historyIndex refs <? len - 1)%Z then
      let index := (historyIndex refs + 1)%Z in
      let line := historyAt (history refs) index in
      ({| input := line; history := history refs; historyIndex := index |},
       clearLine (input refs) ++ [Write line])
    else if (historyIndex refs =? len - 1)%Z then
      ({| input := EmptyString; history := history refs;
          historyIndex := (historyIndex refs + 1)%Z |},
       clearLine (input refs))
    else (refs, [])
  else if String.eqb (domKey ev) "Escape" then (refs, [HologramOff])
  else if negb (altKey ev) && negb (ctrlKey ev) && negb (metaKey ev)
          && (String.length (key ev) =? 1)%nat then
    ({| input := input refs +:+ key ev; history := history refs;
        historyIndex := historyIndex refs |},
     [Write (key ev)])
  else (refs, []).

(** The paste handler: [term.onData]. *)
Definition onData (data : string) (refs : Refs) : Refs * list Effect :=
  if (1 <? String.length data)%nat && negb (JS.includes "027" data)
     && negb (JS.includes "013" data) then
    ({| input := input refs +:+ data; history := history refs;
        historyIndex := historyIndex refs |},
     [Write data])
  else (refs, []).

(** What reaches the handlers, and a run of it from given references,
    with the effects in order. *)
Inductive Incoming : Type :=
  | Key (ev : KeyEvent)
  | Data (data : string).

Definition handle (incoming : Incoming) (refs : Refs) : Refs * list Effect :=
  match incoming with
  | Key ev => onKey ev refs
  | Data data => onData data refs
  end.

Fixpoint runAll (incomings : list Incoming) (refs : Refs)
    : Refs * list Effect :=
  match incomings with
  | [] => (refs, [])
  | incoming :: rest =>
      let '(refs', effects) := handle incoming refs in
      let '(refs'', effects') := runAll rest refs' in
      (refs'', effects ++ effects')
  end.

(** The commands handed to [executeCommand], in order. *)
Fixpoint executed (effects : list Effect) : list string :=
  match effects with
  | [] => []
  | Execute cmd :: rest => cmd :: executed rest
  | _ :: rest => executed rest
  end.

(** The references as the handlers keep them: the index between -1 and
    the length of the history, and every entry of the history a trimmed,
    non-empty line. *)
Definition wellFormed (refs : Refs) : Prop :=
  (-1 ≤ historyIndex refs ≤ Z.of_nat (length (history refs)))%Z
  ∧ Forall (λ cmd, JS.truthy cmd = true ∧ JS.trim cmd = cmd) (history refs).

(** The plain keys: a named key, or a typed character. *)
Definition named (name : string) : KeyEvent :=
  {| domKey := name; key := EmptyString; altKey := false; ctrlKey := false;
     metaKey := false |}.

Definition typed (c : ascii) : KeyEvent :=
  {| domKey := JS.str c; key := JS.str c; altKey := false;
     ctrlKey := false; metaKey := false |}.

End Prompt.

(** ** Terminal.tsx: expressions the evaluator leaves as they are *)

(** A character of the class tested before the evaluation, the capital M
    apart (lower-casing leaves none): a digit, one of the signs
    + - * / ( ) . and the comma, one of the letters a, t, h, or
    whitespace. *)
Definition arithChar (c : ascii) : bool :=
  Terminal.safeChar c && negb (Ascii.eqb c "M").

(** * Properties *)

(** ** Strings *)

Lemma append_cons (x : ascii) (a b : string) :
  String x a +:+ b = String x (a +:+ b).
Proof. reflexivity. Qed.

Lemma append_assoc (a b c : string) : (a +:+ b) +:+ c = a +:+ (b +:+ c).
Proof.
  induction a as [|x a IH]; [reflexivity|].
  rewrite !append_cons. by rewrite IH.
Qed.

Lemma append_empty_r (a : string) : a +:+ EmptyString = a.
Proof.
  induction a as [|x a IH]; [reflexivity|].
  rewrite append_cons. by rewrite IH.
Qed.

Lemma truthy_spec (s : string) : JS.truthy s = true ↔ s ≠ EmptyString.
Proof. destruct s; simpl; split; intros; congruence. Qed.

Lemma truthy_false (s : string) : JS.truthy s = false ↔ s = EmptyString.
Proof. destruct s; simpl; split; intros; congruence. Qed.

Lemma toLowerCase_truthy (s : string) :
  JS.truthy (JS.toLowerCase s) = JS.truthy s.
Proof. by destruct s. Qed.

(** ** The tokenizer *)

Example tokenize_roundtrip :
  tokenize ("draw " +:+ quoted "my cat" +:+ " --width=10")
  = ["draw"; "my cat"; "--width=10"].
Proof. reflexivity. Qed.

Lemma tokScan_app (a b : string) (st : TokState) :
  tokScan st (a +:+ b) = tokScan (tokScan st a) b.
Proof.
  revert st. induction a as [|c a IH]; intros st; [reflexivity|].
  rewrite append_cons. simpl. apply IH.
Qed.

(** Pushing a token keeps the tokens non-empty: the push is guarded by
    [if (current)]. *)
Lemma tokStep_tokens_truthy (st : TokState) (char : ascii) :
  Forall (λ tok, JS.truthy tok = true) (tokens st) →
  Forall (λ tok, JS.truthy tok = true) (tokens (tokStep st char)).
Proof.
  intros Hst. unfold tokStep.
  destruct (isQuote char && negb (inQuote st)); [exact Hst|].
  destruct (String.eqb (JS.str char) (quoteChar st) && inQuote st);
    [exact Hst|].
  destruct (Ascii.eqb char " " && negb (inQuote st)); [|exact Hst].
  destruct (JS.truthy (current st)) eqn:Hcur; [|exact Hst].
  simpl. apply Forall_app. split; [exact Hst|]. by constructor.
Qed.

Lemma tokScan_tokens_truthy (input : string) (st : TokState) :
  Forall (λ tok, JS.truthy tok = true) (tokens st) →
  Forall (λ tok, JS.truthy tok = true) (tokens (tokScan st input)).
Proof.
  revert st. induction input as [|c input IH]; intros st Hst; simpl.
  - exact Hst.
  - apply IH. by apply tokStep_tokens_truthy.
Qed.

Lemma tokenize_truthy (input : string) :
  Forall (λ tok, JS.truthy tok = true) (tokenize input).
Proof.
  unfold tokenize, tokFlush.
  pose proof (tokScan_tokens_truthy input tokInit (Forall_nil_2 _)) as H.
  destruct (JS.truthy (current (tokScan tokInit input))) eqn:Hcur;
    [|exact H].
  apply Forall_app. split; [exact H|]. by constructor.
Qed.

(** Inside a quoted span opened by [q], every character other than [q] is
    appended to the current token, spaces and the other quote character
    included. *)
Lemma tokScan_inside_quote (q : ascii) (rest : string) (st : TokState) :
  inQuote st = true →
  quoteChar st = JS.str q →
  JS.includes q rest = false →
  tokScan st rest
  = {| tokens := tokens st; current := current st +:+ rest;
       inQuote := true; quoteChar := JS.str q |}.
Proof.
  revert st. induction rest as [|c rest IH]; intros st Hin Hqc Hnot.
  - rewrite append_empty_r. destruct st; simpl in *; congruence.
  - simpl in Hnot. apply orb_false_iff in Hnot as [Hc Hrest].
    assert (tokStep st c
            = {| tokens := tokens st; current := current st +:+ JS.str c;
                 inQuote := true; quoteChar := JS.str q |}) as Hstep.
    { unfold tokStep. rewrite Hin, Hqc, !andb_false_r.
      assert (String.eqb (JS.str c) (JS.str q) = false) as ->.
      { apply String.eqb_neq. intros [= ->].
        by rewrite Ascii.eqb_refl in Hc. }
      reflexivity. }
    change (tokScan st (String c rest)) with (tokScan (tokStep st c) rest).
    rewrite Hstep, IH by done. simpl.
    by rewrite append_assoc.
Qed.

(** Claim C6.  An opening quote that is never closed is not an error:
    [tokenize] is a total function, and when the quote character [q] opens
    a quoted span after [pre] and does not occur in [rest], everything in
    [rest] is appended verbatim to the token being built, which is then
    flushed as the last token (unless it is empty).  In particular the
    input made of say, a space, a double quote and hello gives the tokens
    say and hello. *)
Theorem unterminated_quote_is_lenient :
  (∀ (pre rest : string) (q : ascii),
      inQuote (tokScan tokInit pre) = false →
      isQuote q = true →
      JS.includes q rest = false →
      let st := tokScan tokInit pre in
      tokenize (pre +:+ String q rest)
      = tokens st ++ (if JS.truthy (current st +:+ rest)
                      then [current st +:+ rest] else []))
  ∧ tokenize ("say " +:+ String JS.dquote "hello") = ["say"; "hello"].
Proof.
  split; [|reflexivity].
  intros pre rest q Hout Hq Hnot st.
  unfold tokenize. rewrite tokScan_app.
  subst st. set (st := tokScan tokInit pre) in *. simpl.
  assert (tokStep st q
          = {| tokens := tokens st; current := current st;
               inQuote := true; quoteChar := JS.str q |}) as ->.
  { unfold tokStep. by rewrite Hq, Hout. }
  rewrite (tokScan_inside_quote q); simpl; try done.
  unfold tokFlush; simpl.
  destruct (JS.truthy (current st +:+ rest)); [done|].
  by rewrite app_nil_r.
Qed.

Lemma unterminated_quote_is_lenient_witness :
  tokenize ("echo a " +:+ String JS.squote "b c  d")
  = ["echo"; "a"; "b c  d"].
Proof.
  exact (proj1 unterminated_quote_is_lenient "echo a " "b c  d" JS.squote
           eq_refl eq_refl eq_refl).
Defined.

(** Claim C10.  Every token that [tokenize] returns is a non-empty string.
    So a quoted empty string produces no token: draw, an opening and a
    closing quote, then x, tokenizes to draw and x, and the parsed command
    has the single argument x. *)
Theorem tokens_are_nonempty :
  (∀ input : string, Forall (λ tok, JS.truthy tok = true) (tokenize input))
  ∧ tokenize ("draw " +:+ quoted EmptyString +:+ " x") = ["draw"; "x"]
  ∧ tokenize ("draw " +:+ String JS.squote (String JS.squote " x"))
    = ["draw"; "x"]
  ∧ args (parseCommand ("draw " +:+ quoted EmptyString +:+ " x")) = ["x"].
Proof.
  split; [exact tokenize_truthy|].
  repeat split; reflexivity.
Qed.

(** ** The parser *)

(** The case analysis of one turn of the loop on the token [part]: a long
    flag with an equals sign (by the number of pieces of the split), a
    long flag without one, a short flag, a positional argument. *)
Ltac token_cases part :=
  destruct (JS.startsWith "--" part);
  [ destruct (JS.includes "=" (JS.slice 2 part));
    [ destruct (JS.split "=" (JS.slice 2 part)) as [|? [|? ?]] | ]
  | destruct (JS.startsWith "-" part && (String.length part =? 2)%nat) ].

(** Whether the token after a flag is absorbed as its value. *)
Ltac next_cases next := destruct (negb (JS.startsWith "-" next)).

Lemma absorbable_drop (parts : list string) (i : nat) :
  absorbable parts i
  = match drop (S i) parts with
    | next :: _ => if negb (JS.startsWith "-" next) then Some next else None
    | [] => None
    end.
Proof.
  unfold absorbable. replace (i + 1)%nat with (S i) by lia.
  destruct (parts !! S i) as [next|] eqn:Hnext.
  - by rewrite (drop_S _ _ _ Hnext).
  - apply lookup_ge_None in Hnext. by rewrite drop_ge.
Qed.

(** The [while] loop never runs out of iterations: with at least as much
    fuel as there are tokens from the cursor on, it computes
    [parseTokens]. *)
Lemma parseLoop_parseTokens (fuel : nat) (parts : list string) (i : nat)
    (args : list string) (flags : gmap string FlagValue) :
  (length parts - i ≤ fuel)%nat →
  parseLoop fuel parts i args flags = parseTokens (drop i parts) (args, flags).
Proof.
  revert i args flags.
  induction fuel as [|fuel IH]; intros i args flags Hfuel.
  - rewrite drop_ge by lia. reflexivity.
  - cbn [parseLoop].
    destruct (parts !! i) as [part|] eqn:Hpart.
    2:{ apply lookup_ge_None in Hpart. by rewrite drop_ge. }
    pose proof (lookup_lt_Some _ _ _ Hpart) as Hlt.
    rewrite (drop_S _ _ _ Hpart). cbn [parseTokens].
    rewrite absorbable_drop.
    replace (i + 1 + 1)%nat with (S (S i)) by lia.
    replace (i + 1)%nat with (S i) by lia.
    assert (∀ a f, parseLoop fuel parts (S i) a f
                   = parseTokens (drop (S i) parts) (a, f)) as IH1.
    { intros a f. apply IH. lia. }
    assert (∀ a f next rest'',
              drop (S i) parts = next :: rest'' →
              parseLoop fuel parts (S (S i)) a f = parseTokens rest'' (a, f))
      as IH2.
    { intros a f next rest'' Hd. rewrite IH by lia.
      assert (drop (S (S i)) parts = rest'') as <-; [|done].
      replace (S (S i)) with (S i + 1)%nat by lia.
      by rewrite <- (drop_drop parts 1 (S i)), Hd. }
    token_cases part; try (by rewrite IH1);
      (destruct (drop (S i) parts) as [|next rest''] eqn:Hd;
       [ by rewrite IH1, ?Hd
       | next_cases next;
         [ by rewrite (IH2 _ _ next rest'') | by rewrite IH1, ?Hd ] ]).
Qed.

(** [parseCommand] in terms of the tokens. *)
Lemma parseCommand_tokens (input : string) :
  parseCommand input
  = match tokenize (JS.trim input) with
    | [] => mkParsed EmptyString [] ∅ (JS.trim input)
    | first :: rest =>
        mkParsed (JS.toLowerCase first) (parseTokens rest ([], ∅)).1
          (parseTokens rest ([], ∅)).2 (JS.trim input)
    end.
Proof.
  unfold parseCommand.
  destruct (tokenize (JS.trim input)) as [|first rest] eqn:Htok;
    [reflexivity|].
  rewrite parseLoop_parseTokens by (simpl; lia).
  simpl drop. rewrite drop_0.
  by destruct (parseTokens rest ([], ∅)).
Qed.

(** One turn of the loop, on the token [part] followed by [next]. *)
Lemma parseTokens_two (part next : string) (rest : list string)
    (st : list string * gmap string FlagValue) :
  parseTokens (part :: next :: rest) st
  = if JS.startsWith "--" part then
      if JS.includes "=" (JS.slice 2 part) then
        match JS.split "=" (JS.slice 2 part) with
        | key :: value :: _ =>
            parseTokens (next :: rest) (st.1, setFlag key (FStr value) st.2)
        | _ => parseTokens (next :: rest) st
        end
      else if negb (JS.startsWith "-" next) then
        parseTokens rest (st.1, setFlag (JS.slice 2 part) (FStr next) st.2)
      else
        parseTokens (next :: rest)
          (st.1, setFlag (JS.slice 2 part) (FBool true) st.2)
    else if JS.startsWith "-" part && (String.length part =? 2)%nat then
      if negb (JS.startsWith "-" next) then
        parseTokens rest (st.1, setFlag (JS.slice 1 part) (FStr next) st.2)
      else
        parseTokens (next :: rest)
          (st.1, setFlag (JS.slice 1 part) (FBool true) st.2)
    else parseTokens (next :: rest) (st.1 ++ [part], st.2).
Proof. reflexivity. Qed.

(** One turn of the loop, on the last token. *)
Lemma parseTokens_last (part : string)
    (st : list string * gmap string FlagValue) :
  parseTokens [part] st
  = if JS.startsWith "--" part then
      if JS.includes "=" (JS.slice 2 part) then
        match JS.split "=" (JS.slice 2 part) with
        | key :: value :: _ => (st.1, setFlag key (FStr value) st.2)
        | _ => st
        end
      else (st.1, setFlag (JS.slice 2 part) (FBool true) st.2)
    else if JS.startsWith "-" part && (String.length part =? 2)%nat then
      (st.1, setFlag (JS.slice 1 part) (FBool true) st.2)
    else (st.1 ++ [part], st.2).
Proof. reflexivity. Qed.

(** A token that begins with a dash is never absorbed as the value of the
    flag before it, so the loop reaches it with the state that the tokens
    before it produce. *)
Lemma parseTokens_before_dash (pre : list string) (tok : string)
    (rest : list string) (st : list string * gmap string FlagValue) :
  JS.startsWith "-" tok = true →
  parseTokens (pre ++ tok :: rest) st
  = parseTokens (tok :: rest) (parseTokens pre st).
Proof.
  intros Hdash.
  remember (length pre) as n eqn:Hn.
  revert pre st Hn.
  induction n as [n IH] using lt_wf_ind; intros pre st ->.
  destruct pre as [|part pre]; [reflexivity|].
  assert (∀ st', parseTokens (pre ++ tok :: rest) st'
                 = parseTokens (tok :: rest) (parseTokens pre st')) as IH1.
  { intros st'. eapply IH; [|reflexivity]. simpl. lia. }
  destruct pre as [|next pre].
  - (* [part] is the token just before [tok] *)
    change ([part] ++ tok :: rest) with (part :: tok :: rest).
    rewrite parseTokens_two, parseTokens_last, Hdash.
    cbv beta iota delta [negb].
    token_cases part; reflexivity.
  - assert (∀ st', parseTokens (pre ++ tok :: rest) st'
                   = parseTokens (tok :: rest) (parseTokens pre st')) as IH2.
    { intros st'. eapply IH; [|reflexivity]. simpl. lia. }
    change ((part :: next :: pre) ++ tok :: rest)
      with (part :: next :: (pre ++ tok :: rest)).
    rewrite !parseTokens_two.
    token_cases part; try apply IH1;
      (next_cases next; [apply IH2 | apply IH1]).
Qed.

Lemma startsWith_dash_of_flag (tok name : string) :
  flagWithoutValue tok = Some name → JS.startsWith "-" tok = true.
Proof.
  unfold flagWithoutValue.
  destruct (JS.startsWith "--" tok) eqn:Hlong.
  - intros _. destruct tok as [|a tok]; [discriminate|].
    cbn [JS.startsWith] in *.
    destruct (Ascii.eqb "-" a); [reflexivity | discriminate].
  - destruct (JS.startsWith "-" tok); [done|]. simpl. discriminate.
Qed.

(** The loop only ever appends to [args]. *)
Lemma parseTokens_args_extend (rest : list string) (args : list string)
    (flags : gmap string FlagValue) :
  ∃ more, (parseTokens rest (args, flags)).1 = args ++ more.
Proof.
  remember (length rest) as n eqn:Hn.
  revert rest args flags Hn.
  induction n as [n IH] using lt_wf_ind; intros rest args flags ->.
  destruct rest as [|part rest]; [exists []; by rewrite app_nil_r|].
  assert (∀ a f, ∃ more, (parseTokens rest (a, f)).1 = a ++ more) as IH1.
  { intros a f. eapply IH; [|reflexivity]. simpl. lia. }
  destruct rest as [|next rest].
  - rewrite parseTokens_last. cbn [fst snd].
    token_cases part;
      first [ by exists [part] | exists []; by rewrite app_nil_r ].
  - assert (∀ a f, ∃ more, (parseTokens rest (a, f)).1 = a ++ more) as IH2.
    { intros a f. eapply IH; [|reflexivity]. simpl. lia. }
    rewrite parseTokens_two. cbn [fst snd].
    token_cases part; try apply IH1;
      try (next_cases next; [apply IH2 | apply IH1]).
    (* the positional argument *)
    destruct (IH1 (args ++ [part]) flags) as [more Hmore].
    exists (part :: more). rewrite Hmore.
    by rewrite <- app_assoc.
Qed.

Example parse_unit_flag :
  flags (parseCommand "physics force --unit") !! "unit" = Some (FBool true)
  ∧ flags (parseCommand "physics force --unit kg") !! "unit"
    = Some (FStr "kg")
  ∧ args (parseCommand "physics force --unit kg") = ["force"].
Proof. repeat split; reflexivity. Qed.

Example parse_two_boolean_flags :
  flags (parseCommand "run --verbose --debug")
  = <["debug" := FBool true]> (<["verbose" := FBool true]> ∅).
Proof. reflexivity. Qed.

(** Claim C4, and where the code leaves it.  A flag token without a
    value of its own (a long flag whose name has no equals sign, or a
    dash and one more character), met after the tokens [pre], takes the
    token that follows as its string value exactly when that token exists
    and does not begin with a dash, and the parse goes on after the
    absorbed token, which is therefore not added to [args]; otherwise the
    flag is stored as [true] and the parse goes on with the next token.
    In particular [-w 80] stores the string 80 under w, and [-w --other]
    stores [true] under w.  That holds for every flag name but one: under
    the name [__proto__] the assignment stores nothing, while the token
    that follows is absorbed all the same, so [--__proto__ 80] leaves no
    flag and no argument, and 80 is lost. *)
Theorem flag_absorbs_next_value :
  (∀ (input first : string) (pre : list string) (tok : string)
     (rest : list string) (name : string),
      tokenize (JS.trim input) = first :: pre ++ tok :: rest →
      flagWithoutValue tok = Some name →
      let st := parseTokens pre ([], ∅) in
      let stored value :=
        if String.eqb name "__proto__" then st.2
        else <[name := value]> st.2 in
      (args (parseCommand input), flags (parseCommand input))
      = match rest with
        | next :: rest' =>
            if JS.startsWith "-" next then
              parseTokens rest (st.1, stored (FBool true))
            else
              parseTokens rest' (st.1, stored (FStr next))
        | [] => (st.1, stored (FBool true))
        end)
  ∧ (flags (parseCommand "resize -w 80") !! "w" = Some (FStr "80")
     ∧ args (parseCommand "resize -w 80") = [])
  ∧ (flags (parseCommand "resize -w --other") !! "w" = Some (FBool true)
     ∧ flags (parseCommand "resize -w --other") !! "other"
       = Some (FBool true))
  ∧ (flagWithoutValue "--__proto__" = Some "__proto__"
     ∧ tokenize (JS.trim "draw --__proto__ 80")
       = ["draw"; "--__proto__"; "80"]
     ∧ flags (parseCommand "draw --__proto__ 80") = ∅
     ∧ args (parseCommand "draw --__proto__ 80") = []
     ∧ flags (parseCommand "draw --width 80") !! "width" = Some (FStr "80")).
Proof.
  split; [|repeat split; reflexivity].
  intros input first pre tok rest name Htok Hflag st stored.
  rewrite parseCommand_tokens, Htok. cbn [args flags].
  rewrite <- surjective_pairing.
  rewrite parseTokens_before_dash by (by eapply startsWith_dash_of_flag).
  fold st.
  unfold flagWithoutValue in Hflag.
  destruct rest as [|next rest].
  - rewrite parseTokens_last.
    destruct (JS.startsWith "--" tok).
    + destruct (JS.includes "=" (JS.slice 2 tok)); [done|].
      by assert (name = JS.slice 2 tok) as -> by congruence.
    + destruct (JS.startsWith "-" tok && (String.length tok =? 2)%nat);
        [|done].
      by assert (name = JS.slice 1 tok) as -> by congruence.
  - rewrite parseTokens_two.
    destruct (JS.startsWith "--" tok).
    + destruct (JS.includes "=" (JS.slice 2 tok)); [done|].
      assert (name = JS.slice 2 tok) as -> by congruence.
      by destruct (JS.startsWith "-" next).
    + destruct (JS.startsWith "-" tok && (String.length tok =? 2)%nat);
        [|done].
      assert (name = JS.slice 1 tok) as -> by congruence.
      by destruct (JS.startsWith "-" next).
Qed.

Lemma flag_absorbs_next_value_witness :
  tokenize (JS.trim "draw cat --width 40 extra")
  = "draw" :: ["cat"] ++ "--width" :: ["40"; "extra"]
  ∧ flagWithoutValue "--width" = Some "width"
  ∧ (args (parseCommand "draw cat --width 40 extra"),
     flags (parseCommand "draw cat --width 40 extra"))
    = parseTokens ["extra"] (["cat"], <["width" := FStr "40"]> ∅).
Proof.
  split; [reflexivity|]. split; [reflexivity|].
  exact (proj1 flag_absorbs_next_value "draw cat --width 40 extra" "draw"
           ["cat"] "--width" ["40"; "extra"] "width" eq_refl eq_refl).
Defined.

(** Claim C5.  A token after the first that begins with a dash, does not
    begin with two dashes and does not have exactly two characters is a
    positional argument: when the loop reaches it, it is appended to
    [args], the flags are left as they are, and the parse goes on with
    the next token.  So [args] is the arguments of the tokens before it,
    then the token, then the arguments of the tokens after it. *)
Theorem dash_word_is_positional :
  (∀ (input first : string) (pre : list string) (tok : string)
     (rest : list string),
      tokenize (JS.trim input) = first :: pre ++ tok :: rest →
      dashButNoFlag tok = true →
      let st := parseTokens pre ([], ∅) in
      (args (parseCommand input), flags (parseCommand input))
      = parseTokens rest (st.1 ++ [tok], st.2)
      ∧ ∃ more, args (parseCommand input) = st.1 ++ tok :: more)
  ∧ (args (parseCommand "draw -width 10") = ["-width"; "10"]
     ∧ flags (parseCommand "draw -width 10") = ∅).
Proof.
  split; [|split; reflexivity].
  intros input first pre tok rest Htok Hdash st.
  unfold dashButNoFlag in Hdash.
  apply andb_true_iff in Hdash as [Hdash Hlen].
  apply andb_true_iff in Hdash as [Hdash Hlong].
  apply negb_true_iff in Hlong, Hlen.
  assert ((args (parseCommand input), flags (parseCommand input))
          = parseTokens rest (st.1 ++ [tok], st.2)) as Heq.
  { rewrite parseCommand_tokens, Htok. cbn [args flags].
    rewrite <- surjective_pairing.
    rewrite parseTokens_before_dash by done. fold st.
    destruct rest as [|next rest].
    - by rewrite parseTokens_last, Hlong, Hdash, Hlen.
    - by rewrite parseTokens_two, Hlong, Hdash, Hlen. }
  split; [exact Heq|].
  destruct (parseTokens_args_extend rest (st.1 ++ [tok]) st.2)
    as [more Hmore].
  exists more.
  apply (f_equal fst) in Heq. simpl in Heq.
  rewrite Heq, Hmore. simpl. by rewrite <- app_assoc.
Qed.

Lemma dash_word_is_positional_witness :
  tokenize (JS.trim "draw cat -width 10")
  = "draw" :: ["cat"] ++ "-width" :: ["10"]
  ∧ dashButNoFlag "-width" = true
  ∧ (args (parseCommand "draw cat -width 10"),
     flags (parseCommand "draw cat -width 10"))
    = parseTokens ["10"] (["cat"] ++ ["-width"], ∅).
Proof.
  split; [reflexivity|]. split; [reflexivity|].
  exact (proj1 (proj1 dash_word_is_positional "draw cat -width 10" "draw"
                  ["cat"] "-width" ["10"] eq_refl eq_refl)).
Defined.

Lemma trim_whitespace (input : string) :
  JS.allChars JS.isWhiteSpace input = true → JS.trim input = EmptyString.
Proof.
  unfold JS.trim. induction input as [|c input IH]; [reflexivity|].
  cbn [JS.allChars JS.trimStart]. intros [Hc Hrest]%andb_true_iff.
  rewrite Hc. by apply IH.
Qed.

(** Counterexample to C2: for the bare command help, [args] and [flags]
    are empty and [command] is not. *)
Lemma bare_command_has_empty_args_and_flags :
  ¬ (command (parseCommand "help") = EmptyString
     ↔ args (parseCommand "help") = []
       ∧ flags (parseCommand "help") = ∅).
Proof.
  intros [_ Hback].
  assert (command (parseCommand "help") = EmptyString) as Hempty.
  { apply Hback. split; reflexivity. }
  discriminate Hempty.
Qed.

(** Claim C2, amended.  When [command] is the empty string, [args] is
    empty and [flags] is empty; [command] is empty exactly when the
    trimmed input has no token.  For every input made of whitespace only,
    [parseCommand] returns an empty command, no argument and no flag. *)
Theorem empty_command_has_no_args_and_flags :
  ∀ input : string,
    (command (parseCommand input) = EmptyString
     ↔ tokenize (JS.trim input) = [])
    ∧ (command (parseCommand input) = EmptyString →
       args (parseCommand input) = [] ∧ flags (parseCommand input) = ∅)
    ∧ (JS.allChars JS.isWhiteSpace input = true →
       parseCommand input = mkParsed EmptyString [] ∅ EmptyString).
Proof.
  intros input.
  assert (command (parseCommand input) = EmptyString
          → tokenize (JS.trim input) = []) as Hblank.
  { rewrite parseCommand_tokens.
    pose proof (tokenize_truthy (JS.trim input)) as Htruthy.
    destruct (tokenize (JS.trim input)) as [|first rest]; [done|].
    cbn [command]. intros Hcmd.
    apply Forall_cons in Htruthy as [Hfirst _].
    rewrite <- toLowerCase_truthy, Hcmd in Hfirst. discriminate. }
  split; [|split].
  - split; [exact Hblank|].
    intros Htok. by rewrite parseCommand_tokens, Htok.
  - intros Hcmd. rewrite parseCommand_tokens, (Hblank Hcmd). by split.
  - intros Hws. rewrite parseCommand_tokens, (trim_whitespace _ Hws).
    reflexivity.
Qed.

Lemma empty_command_has_no_args_and_flags_witness :
  (JS.allChars JS.isWhiteSpace (String "009" "   ") = true
   ∧ parseCommand (String "009" "   ")
     = mkParsed EmptyString [] ∅ EmptyString)
  ∧ (command (parseCommand (quoted EmptyString)) = EmptyString
     ∧ args (parseCommand (quoted EmptyString)) = []
     ∧ flags (parseCommand (quoted EmptyString)) = ∅).
Proof.
  split.
  - split; [reflexivity|].
    exact (proj2 (proj2 (empty_command_has_no_args_and_flags
                           (String "009" "   "))) eq_refl).
  - split; [reflexivity|].
    exact (proj1 (proj2 (empty_command_has_no_args_and_flags
                           (quoted EmptyString))) eq_refl).
Defined.

(** [split] cuts at every separator, not at the first one only. *)
Lemma split_at_separator (c : ascii) (a b : string) :
  JS.includes c a = false →
  JS.split c (a +:+ String c b) = a :: JS.split c b.
Proof.
  induction a as [|x a IH]; intros Hnot.
  - change (EmptyString +:+ String c b) with (String c b).
    cbn [JS.split]. by rewrite Ascii.eqb_refl.
  - cbn [JS.includes] in Hnot. apply orb_false_iff in Hnot as [Hx Ha].
    rewrite append_cons. cbn [JS.split]. by rewrite Hx, IH.
Qed.

Lemma split_head (c : ascii) (s : string) :
  ∃ piece pieces, JS.split c s = piece :: pieces.
Proof.
  destruct s as [|a s]; [by exists EmptyString, []|].
  cbn [JS.split]. destruct (Ascii.eqb a c); [by eexists _, _|].
  destruct (JS.split c s); by eexists _, _.
Qed.

Lemma split_two_pieces (c : ascii) (s : string) :
  JS.includes c s = true →
  ∃ key value pieces, JS.split c s = key :: value :: pieces.
Proof.
  induction s as [|a s IH]; [discriminate|].
  cbn [JS.includes JS.split].
  destruct (Ascii.eqb a c).
  - intros _. destruct (split_head c s) as (piece & pieces & ->).
    by eexists _, _, _.
  - intros Hin. destruct (IH Hin) as (key & value & pieces & ->).
    by eexists _, _, _.
Qed.

Lemma includes_app (c : ascii) (a b : string) :
  JS.includes c (a +:+ b) = JS.includes c a || JS.includes c b.
Proof.
  induction a as [|x a IH]; [reflexivity|].
  rewrite append_cons. cbn [JS.includes]. by rewrite IH, orb_assoc.
Qed.

(** Claim C3, as the code has it.  A long flag with two equals signs,
    [--key=value=more], is split at every equals sign and only the first
    two pieces are used: the stored value is [value], the text between
    the first and the second equals sign, and [more] is dropped.  So
    [--a=b=c] stores b under a, not the b=c of the claim.  (Under the
    key [__proto__] the assignment stores nothing at all.) *)
Theorem long_flag_value_stops_at_second_equals :
  (∀ (key value more : string) (st : list string * gmap string FlagValue),
      JS.includes "=" key = false →
      JS.includes "=" value = false →
      parseTokens ["--" +:+ key +:+ "=" +:+ value +:+ "=" +:+ more] st
      = (st.1, if String.eqb key "__proto__" then st.2
               else <[key := FStr value]> st.2))
  ∧ flags (parseCommand "draw --a=b=c") !! "a" = Some (FStr "b")
  ∧ flags (parseCommand "draw --a=b=c") !! "a" ≠ Some (FStr "b=c").
Proof.
  split; [|split; [reflexivity | discriminate]].
  intros key value more st Hkey Hvalue.
  rewrite parseTokens_last.
  change (JS.startsWith "--" ("--" +:+ key +:+ "=" +:+ value +:+ "=" +:+ more))
    with true.
  change (JS.slice 2 ("--" +:+ key +:+ "=" +:+ value +:+ "=" +:+ more))
    with (key +:+ String "=" (value +:+ String "=" more)).
  cbv iota.
  rewrite includes_app. cbn [JS.includes]. rewrite Ascii.eqb_refl.
  rewrite orb_true_l, orb_true_r.
  rewrite (split_at_separator "=" key) by done.
  rewrite (split_at_separator "=" value) by done.
  reflexivity.
Qed.

Lemma long_flag_value_stops_at_second_equals_witness :
  JS.includes "=" "width" = false
  ∧ JS.includes "=" "10" = false
  ∧ parseTokens ["--" +:+ "width" +:+ "=" +:+ "10" +:+ "=" +:+ "x=y"] ([], ∅)
    = ([], <["width" := FStr "10"]> ∅).
Proof.
  split; [reflexivity|]. split; [reflexivity|].
  exact (proj1 long_flag_value_stops_at_second_equals "width" "10" "x=y"
           ([], ∅) eq_refl eq_refl).
Defined.

(** ** The terminal's evaluator *)

Lemma allChars_false (p : ascii → bool) (a b : string) (c : ascii) :
  p c = false → JS.allChars p (a +:+ String c b) = false.
Proof.
  intros Hc. induction a as [|x a IH].
  - change (EmptyString +:+ String c b) with (String c b).
    cbn [JS.allChars]. by rewrite Hc.
  - rewrite append_cons. cbn [JS.allChars]. by rewrite IH, andb_false_r.
Qed.

(** [evaluateMath] answers Invalid expression, whatever the engine is,
    when a character outside the class of its test is left in the
    expression after the substitutions and the removal of the [Math.]
    names: the engine is not called. *)
Lemma evaluateMath_rejects_unsafe (JSValue : Type)
    (runFunction : string → option JSValue)
    (isNumber isInteger : JSValue → bool) (toStr toFixed6 : JSValue → string)
    (expr a b : string) (c : ascii) :
  Terminal.replaceAll Terminal.mathNameMatcher 0
    (Terminal.substitute (JS.toLowerCase (JS.trim expr)))
  = a +:+ String c b →
  Terminal.safeChar c = false →
  Terminal.evaluateMath JSValue runFunction isNumber isInteger toStr toFixed6
    expr = "Invalid expression".
Proof.
  intros Hresidue Hc. unfold Terminal.evaluateMath, Terminal.passesSafeTest.
  rewrite Hresidue, (allChars_false _ a b c Hc), andb_false_r.
  reflexivity.
Qed.

(** ** The executor *)

Section ExecutorProperties.

Context (mathBackend : string → option string).
Context (JSValue : Type) (runFunction : string → option JSValue)
        (toStr : JSValue → string).
Context (executeHelp : list string → CommandResult)
        (executeDraw : list string → gmap string FlagValue → CommandResult)
        (executePhysics executeSearch : list string → CommandResult)
        (executeAbout : CommandResult).

Local Abbreviation execute :=
  (executeCommand mathBackend JSValue runFunction toStr executeHelp
     executeDraw executePhysics executeSearch executeAbout).

(** Claim C1.  For a parsed command whose name is not empty and not in
    the registry, [executeCommand] returns, whatever the handlers and
    the backend do, a result with [success = false], the error kind and
    an output that starts with the text Unknown command, a colon, a
    space and the command name; the host state is left as it is.  The
    function is total: nothing is thrown on this path. *)
Theorem unknown_command_is_reported (parsed : ParsedCommand) (host : Host) :
  command parsed ≠ EmptyString →
  isValidCommand (command parsed) = false →
  execute parsed host
  = (result false (unknownCommand (command parsed)) TError, host)
  ∧ success (execute parsed host).1 = false
  ∧ type (execute parsed host).1 = TError
  ∧ output (execute parsed host).1
    = "Unknown command: " +:+ command parsed +:+ nl +:+ "Type "
      +:+ quoted "help" +:+ " for available commands.".
Proof.
  intros Hcmd Hinvalid.
  assert (execute parsed host
          = (result false (unknownCommand (command parsed)) TError, host))
    as Heq.
  { unfold executeCommand.
    apply truthy_spec in Hcmd. by rewrite Hcmd, Hinvalid. }
  rewrite Heq. by repeat split.
Qed.

(** Claim C8, as the code has it.  With the backend out of reach, the
    fallback of [executeSolve] does not reject an expression that has
    characters outside its list: it removes them and hands what is left
    to the engine.  For [2+2abc] the engine is given [2+2], and the
    command succeeds whenever the engine returns a value; in general two
    expressions with the same text left succeed or fail together.  The
    terminal's [evaluateMath] does reject the same expression, and
    DROP TABLE, without calling the engine. *)
Theorem solve_fallback_strips_then_evaluates :
  sanitize "2+2abc" = "2+2"
  ∧ executeSolve (λ _, None) JSValue runFunction toStr ["2+2abc"]
    = match runFunction (strictReturn "2+2") with
      | Some v => result true ("2+2abc = " +:+ toStr v) TInfo
      | None => result false "Could not evaluate: 2+2abc" TError
      end
  ∧ (∀ e1 e2 : string,
        sanitize e1 = sanitize e2 →
        success (solveFallback JSValue runFunction toStr e1)
        = success (solveFallback JSValue runFunction toStr e2))
  ∧ (∀ isNumber isInteger toFixed6,
        Terminal.evaluateMath JSValue runFunction isNumber isInteger toStr
          toFixed6 "2+2abc" = "Invalid expression"
        ∧ Terminal.evaluateMath JSValue runFunction isNumber isInteger
            toStr toFixed6 "DROP TABLE" = "Invalid expression").
Proof.
  split; [reflexivity|]. split; [reflexivity|]. split.
  - intros e1 e2 Hsame. unfold solveFallback. rewrite Hsame.
    by destruct (runFunction (strictReturn (sanitize e2))).
  - intros isNumber isInteger toFixed6. split; reflexivity.
Qed.

(** Claim C9, as the code has it.  The executor's chemistry handler has
    no molar branch, although its own help text lists it: the command
    chemistry molar H2O ends in the error result.  The terminal's
    [calcMolarMass] does compute the mass of H2O, 2 x 1.008 + 15.999,
    the double 18.015. *)
Theorem chemistry_molar_is_not_handled :
  executeChemistry ["molar"; "H2O"] = result false chemistryInvalid TError
  ∧ (∀ host, execute (parseCommand "chemistry molar H2O") host
             = (result false chemistryInvalid TError, host))
  ∧ Terminal.calcMolarMass "H2O" = (0 + 1.008 * 2 + 15.999 * 1)%float
  ∧ Terminal.calcMolarMass "H2O" = 18.015%float.
Proof. repeat split; reflexivity. Qed.

End ExecutorProperties.

Lemma unknown_command_is_reported_witness :
  command (parseCommand "foobar --now") ≠ EmptyString
  ∧ isValidCommand (command (parseCommand "foobar --now")) = false
  ∧ executeCommand (λ _, None) string (λ _, None) id
      (λ _, noOutput) (λ _ _, noOutput) (λ _, noOutput) (λ _, noOutput)
      noOutput (parseCommand "foobar --now") (mkHost false None)
    = (result false (unknownCommand "foobar") TError, mkHost false None).
Proof.
  split; [discriminate|]. split; [reflexivity|].
  refine (proj1 (unknown_command_is_reported (λ _, None) string (λ _, None)
                   id (λ _, noOutput) (λ _ _, noOutput) (λ _, noOutput)
                   (λ _, noOutput) noOutput
                   (parseCommand "foobar --now") (mkHost false None) _ _));
    [discriminate | reflexivity].
Defined.

Lemma solve_fallback_strips_then_evaluates_witness :
  sanitize "2+2abc" = sanitize "2+2"
  ∧ success (solveFallback string (λ code, Some code) id "2+2abc")
    = success (solveFallback string (λ code, Some code) id "2+2").
Proof.
  split; [reflexivity|].
  exact (proj1 (proj2 (proj2 (solve_fallback_strips_then_evaluates string
                                (λ code, Some code) id)))
           "2+2abc" "2+2" eq_refl).
Defined.

(** Counterexample to C7: with no type argument the handler does not
    return a usage error; it opens the image picker. *)
Lemma upload_without_type_opens_image_picker :
  ¬ (success (executeUpload []) = false ∧ type (executeUpload []) = TError)
  ∧ success (executeUpload []) = true
  ∧ triggerUpload (executeUpload []) = Some "image".
Proof.
  split; [|split; reflexivity].
  intros [Hsuccess _]. discriminate Hsuccess.
Qed.

(** Claim C7, amended.  The type argument defaults to image when it is
    missing (or empty).  When the type, after this default, is image or
    video, the handler returns a success result whose [triggerUpload] is
    that type; when the argument is present and is anything else, it
    returns the usage error, with [success = false], the error kind and
    no [triggerUpload]. *)
Theorem upload_type_defaults_to_image :
  ∀ args : list string,
    let type := orDefault (args !! 0%nat) "image" in
    (args !! 0%nat = None ∨ args !! 0%nat = Some EmptyString →
     type = "image")
    ∧ (∀ t, args !! 0%nat = Some t → t ≠ EmptyString → type = t)
    ∧ (type = "image" ∨ type = "video" →
       success (executeUpload args) = true
       ∧ triggerUpload (executeUpload args) = Some type)
    ∧ (type ≠ "image" → type ≠ "video" →
       executeUpload args
       = result false ("Usage: upload image" +:+ nl +:+ "       upload video")
           TError).
Proof.
  intros args type. split; [|split].
  { subst type. by intros [-> | ->]. }
  { subst type. intros t -> Ht%truthy_spec. unfold orDefault. by rewrite Ht. }
  unfold executeUpload. fold type. split.
  - by intros [-> | ->].
  - intros Himage%String.eqb_neq Hvideo%String.eqb_neq.
    by rewrite Himage, Hvideo.
Qed.

Lemma upload_type_defaults_to_image_witness :
  (orDefault (["audio"] !! 0%nat) "image" ≠ "image"
   ∧ orDefault (["audio"] !! 0%nat) "image" ≠ "video"
   ∧ executeUpload ["audio"]
     = result false ("Usage: upload image" +:+ nl +:+ "       upload video")
         TError)
  ∧ (orDefault (["video"; "x"] !! 0%nat) "image" = "video"
     ∧ success (executeUpload ["video"; "x"]) = true
     ∧ triggerUpload (executeUpload ["video"; "x"]) = Some "video")
  ∧ (orDefault (([] : list string) !! 0%nat) "image" = "image"
     ∧ success (executeUpload []) = true
     ∧ triggerUpload (executeUpload []) = Some "image").
Proof.
  split; [|split].
  - split; [discriminate|]. split; [discriminate|].
    refine (proj2 (proj2 (proj2 (upload_type_defaults_to_image ["audio"])))
              _ _);
      discriminate.
  - split; [reflexivity|].
    exact (proj1 (proj2 (proj2 (upload_type_defaults_to_image
                                  ["video"; "x"])))
             (or_intror eq_refl)).
  - split.
    + exact (proj1 (upload_type_defaults_to_image []) (or_introl eq_refl)).
    + exact (proj1 (proj2 (proj2 (upload_type_defaults_to_image [])))
               (or_introl eq_refl)).
Defined.

(** * Further properties *)

(** ** The tokenizer outside quotes *)

Lemma tokStep_plain (st : TokState) (c : ascii) :
  inQuote st = false →
  quoteChar st = EmptyString →
  plainChar c = true →
  tokStep st c
  = {| tokens := tokens st; current := current st +:+ JS.str c;
       inQuote := false; quoteChar := EmptyString |}.
Proof.
  intros Hin Hqc [Hq Hsp%negb_true_iff]%andb_true_iff.
  apply negb_true_iff in Hq.
  unfold tokStep. rewrite Hq, Hin, Hqc, Hsp. reflexivity.
Qed.

Lemma tokScan_plain (w : string) (st : TokState) :
  inQuote st = false →
  quoteChar st = EmptyString →
  JS.allChars plainChar w = true →
  tokScan st w
  = {| tokens := tokens st; current := current st +:+ w;
       inQuote := false; quoteChar := EmptyString |}.
Proof.
  revert st. induction w as [|c w IH]; intros st Hin Hqc Hw.
  - rewrite append_empty_r. destruct st; simpl in *; congruence.
  - cbn [JS.allChars] in Hw. apply andb_true_iff in Hw as [Hc Hw].
    change (tokScan st (String c w)) with (tokScan (tokStep st c) w).
    rewrite (tokStep_plain st c Hin Hqc Hc), IH by done.
    cbn [tokens current]. by rewrite append_assoc.
Qed.

Lemma tokStep_space (st : TokState) :
  inQuote st = false →
  quoteChar st = EmptyString →
  tokStep st " "
  = {| tokens := tokFlush st; current := EmptyString;
       inQuote := false; quoteChar := EmptyString |}.
Proof.
  intros Hin Hqc. unfold tokStep, tokFlush. rewrite Hin, Hqc.
  change (isQuote " ") with false. cbn [andb negb String.eqb JS.str].
  rewrite Ascii.eqb_refl.
  destruct st as [toks cur inq qc]; simpl in *. subst.
  by destruct cur.
Qed.

(** From a state between two tokens, the plain tokens joined by single
    spaces come back one by one. *)
Lemma tokenize_join_from (toks tokens0 : list string) :
  Forall (λ tok, plainToken tok = true) toks →
  tokFlush (tokScan {| tokens := tokens0; current := EmptyString;
                       inQuote := false; quoteChar := EmptyString |}
              (JS.join " " toks))
  = tokens0 ++ toks.
Proof.
  revert tokens0. induction toks as [|x toks IH]; intros tokens0 Hall.
  - by rewrite app_nil_r.
  - apply Forall_cons in Hall as [Hx Hall].
    apply andb_true_iff in Hx as [Hne Hplain].
    destruct toks as [|y toks].
    + cbn [JS.join]. rewrite tokScan_plain by done.
      unfold tokFlush. cbn [tokens current].
      change (EmptyString +:+ x) with x. by rewrite Hne.
    + change (JS.join " " (x :: y :: toks))
        with (x +:+ String " " (JS.join " " (y :: toks))).
      rewrite tokScan_app, (tokScan_plain x) by done.
      cbn [tokScan]. rewrite tokStep_space by done.
      cbn [tokens current]. change (EmptyString +:+ x) with x.
      unfold tokFlush at 2. cbn [tokens current]. rewrite Hne.
      rewrite IH by done. by rewrite <- app_assoc.
Qed.

(** X1.  Round trip from tokens to a line and back: joining with single
    spaces tokens that are non-empty and have neither a space nor a quote
    character, then tokenizing, gives the tokens back. *)
Theorem tokenize_join_roundtrip (toks : list string) :
  Forall (λ tok, plainToken tok = true) toks →
  tokenize (JS.join " " toks) = toks.
Proof. intros Hall. exact (tokenize_join_from toks [] Hall). Qed.

Lemma tokenize_join_roundtrip_witness :
  Forall (λ tok, plainToken tok = true) ["draw"; "cat"; "--width=10"]
  ∧ tokenize (JS.join " " ["draw"; "cat"; "--width=10"])
    = ["draw"; "cat"; "--width=10"].
Proof.
  assert (Forall (λ tok, plainToken tok = true)
            ["draw"; "cat"; "--width=10"]) as Hall.
  { repeat constructor. }
  split; [exact Hall|].
  exact (tokenize_join_roundtrip ["draw"; "cat"; "--width=10"] Hall).
Defined.

Lemma allChars_app (p : ascii → bool) (a b : string) :
  JS.allChars p (a +:+ b) = JS.allChars p a && JS.allChars p b.
Proof.
  induction a as [|x a IH]; [reflexivity|].
  rewrite append_cons. cbn [JS.allChars]. by rewrite IH, andb_assoc.
Qed.

Lemma tokFlush_plain (st : TokState) :
  plainState st → Forall (λ tok, plainToken tok = true) (tokFlush st).
Proof.
  intros (_ & _ & Htoks & Hcur). unfold tokFlush.
  destruct (JS.truthy (current st)) eqn:Hne; [|done].
  apply Forall_app. split; [done|]. constructor; [|done].
  unfold plainToken. by rewrite Hne, Hcur.
Qed.

Lemma tokStep_plainState (st : TokState) (c : ascii) :
  plainState st → notQuote c = true → plainState (tokStep st c).
Proof.
  intros Hst Hc. pose proof Hst as (Hin & Hqc & Htoks & Hcur).
  destruct (Ascii.eqb_spec c " ") as [->|Hsp].
  - rewrite tokStep_space by done.
    repeat split; try done. by apply tokFlush_plain.
  - assert (plainChar c = true) as Hplain.
    { unfold plainChar. unfold notQuote in Hc. rewrite Hc.
      by apply Ascii.eqb_neq in Hsp as ->. }
    rewrite tokStep_plain by done.
    repeat split; try done. cbn [current].
    rewrite allChars_app, Hcur. cbn [JS.allChars JS.str].
    by rewrite Hplain.
Qed.

Lemma tokScan_plainState (s : string) (st : TokState) :
  plainState st → JS.allChars notQuote s = true → plainState (tokScan st s).
Proof.
  revert st. induction s as [|c s IH]; intros st Hst Hs; [done|].
  cbn [JS.allChars] in Hs. apply andb_true_iff in Hs as [Hc Hs].
  cbn [tokScan]. apply IH; [|done]. by apply tokStep_plainState.
Qed.

Lemma plainState_init : plainState tokInit.
Proof. repeat split; constructor. Qed.

(** X2.  Without quote characters in the input, every token is plain:
    not empty, with no space and no quote character; and tokenizing is a
    normal form: the tokens joined by single spaces tokenize to the same
    tokens. *)
Theorem tokenize_without_quotes (input : string) :
  JS.allChars notQuote input = true →
  Forall (λ tok, plainToken tok = true) (tokenize input)
  ∧ tokenize (JS.join " " (tokenize input)) = tokenize input.
Proof.
  intros Hfree.
  assert (Forall (λ tok, plainToken tok = true) (tokenize input)) as Hplain.
  { apply tokFlush_plain, tokScan_plainState; [apply plainState_init|done]. }
  split; [exact Hplain|].
  exact (tokenize_join_from (tokenize input) [] Hplain).
Qed.

Lemma tokenize_without_quotes_witness :
  JS.allChars notQuote "  solve   2+2  " = true
  ∧ tokenize (JS.join " " (tokenize "  solve   2+2  "))
    = tokenize "  solve   2+2  ".
Proof.
  split; [reflexivity|].
  exact (proj2 (tokenize_without_quotes "  solve   2+2  " eq_refl)).
Defined.

(** Tokens already pushed play no part in the scan: they stay in front
    of what the scan pushes. *)
Lemma tokStep_tokens_prefix (pre : list string) (st : TokState)
    (c : ascii) :
  tokStep {| tokens := pre ++ tokens st; current := current st;
             inQuote := inQuote st; quoteChar := quoteChar st |} c
  = {| tokens := pre ++ tokens (tokStep st c);
       current := current (tokStep st c);
       inQuote := inQuote (tokStep st c);
       quoteChar := quoteChar (tokStep st c) |}.
Proof.
  unfold tokStep. cbn [tokens current inQuote quoteChar].
  destruct (isQuote c && negb (inQuote st)); [done|].
  destruct (String.eqb (JS.str c) (quoteChar st) && inQuote st); [done|].
  destruct (Ascii.eqb c " " && negb (inQuote st)); [|done].
  destruct (JS.truthy (current st)); [|done].
  cbn [tokens current inQuote quoteChar]. by rewrite app_assoc.
Qed.

Lemma tokScan_tokens_prefix (s : string) (pre : list string)
    (st : TokState) :
  tokScan {| tokens := pre ++ tokens st; current := current st;
             inQuote := inQuote st; quoteChar := quoteChar st |} s
  = {| tokens := pre ++ tokens (tokScan st s);
       current := current (tokScan st s);
       inQuote := inQuote (tokScan st s);
       quoteChar := quoteChar (tokScan st s) |}.
Proof.
  revert st. induction s as [|c s IH]; intros st; [done|].
  cbn [tokScan]. by rewrite tokStep_tokens_prefix, IH.
Qed.

Lemma tokenize_after_tokens (s : string) (pre : list string) :
  tokFlush (tokScan {| tokens := pre; current := EmptyString;
                       inQuote := false; quoteChar := EmptyString |} s)
  = pre ++ tokenize s.
Proof.
  pose proof (tokScan_tokens_prefix s pre tokInit) as Hscan.
  cbn [tokInit tokens current inQuote quoteChar] in Hscan.
  rewrite app_nil_r in Hscan. unfold tokenize. fold tokInit in Hscan.
  rewrite Hscan. unfold tokFlush. cbn [tokens current].
  destruct (JS.truthy (current (tokScan tokInit s))); [|done].
  by rewrite app_assoc.
Qed.

(** X3.  A quoted argument: after a text without quote characters and a
    space, a span between two occurrences of the same quote character,
    with no such character inside, gives its content as it is, spaces
    and the other quote character included, and the quote characters are
    dropped.  The token does not end at the closing quote: it goes on
    with the unquoted characters [tail] typed after it, up to the next
    space or the end of the input.  So a span followed by a space or by
    the end of the input is one token of its own, and an empty one gives
    no token; the text [after] the space is tokenized on its own. *)
Theorem quoted_span_is_one_token
    (before body tail after : string) (q : ascii) :
  JS.allChars notQuote before = true →
  isQuote q = true →
  JS.includes q body = false →
  JS.allChars plainChar tail = true →
  let token :=
    if JS.truthy (body +:+ tail) then [body +:+ tail] else [] in
  tokenize (before +:+ String " " (String q (body +:+ String q tail)))
  = tokenize before ++ token
  ∧ tokenize (before +:+ String " "
                (String q (body +:+ String q (tail +:+ String " " after))))
    = tokenize before ++ token ++ tokenize after.
Proof.
  intros Hfree Hq Hbody Htail token.
  pose proof (tokScan_plainState before tokInit plainState_init Hfree)
    as (Hin & Hqc & _ & _).
  assert (∀ rest,
            tokScan tokInit
              (before +:+ String " " (String q (body +:+ String q
                                                  (tail +:+ rest))))
            = tokScan {| tokens := tokenize before;
                         current := body +:+ tail; inQuote := false;
                         quoteChar := EmptyString |} rest) as Hscan.
  { intros rest. rewrite tokScan_app.
    set (st := tokScan tokInit before) in *.
    cbn [tokScan]. rewrite tokStep_space by done.
    fold (tokenize before).
    assert (∀ T, tokStep {| tokens := T; current := EmptyString;
                            inQuote := false; quoteChar := EmptyString |} q
                 = {| tokens := T; current := EmptyString; inQuote := true;
                      quoteChar := JS.str q |}) as ->.
    { intros T. unfold tokStep. cbn [inQuote negb]. by rewrite Hq. }
    rewrite tokScan_app, (tokScan_inside_quote q body) by done.
    cbn [tokens current tokScan JS.str].
    change (EmptyString +:+ body) with body.
    assert (∀ T, tokStep {| tokens := T; current := body; inQuote := true;
                            quoteChar := JS.str q |} q
                 = {| tokens := T; current := body; inQuote := false;
                      quoteChar := EmptyString |}) as ->.
    { intros T. unfold tokStep. cbn [inQuote quoteChar negb].
      by rewrite andb_false_r, String.eqb_refl. }
    rewrite tokScan_app. by rewrite (tokScan_plain tail). }
  split.
  - pose proof (Hscan EmptyString) as Hend.
    rewrite append_empty_r in Hend.
    unfold tokenize at 1. rewrite Hend. cbn [tokScan].
    unfold tokFlush, token. cbn [tokens current].
    destruct (JS.truthy (body +:+ tail)); [done|]. by rewrite app_nil_r.
  - unfold tokenize at 1. rewrite Hscan. cbn [tokScan].
    rewrite tokStep_space by done.
    rewrite tokenize_after_tokens. unfold tokFlush, token.
    cbn [tokens current].
    destruct (JS.truthy (body +:+ tail)); [|done].
    by rewrite <- app_assoc.
Qed.

Lemma quoted_span_is_one_token_witness :
  tokenize ("draw --title" +:+ String " "
              (String JS.dquote ("my 'old' cat" +:+ String JS.dquote
                                   (EmptyString +:+ String " " "--animate"))))
  = tokenize "draw --title" ++ ["my 'old' cat"] ++ tokenize "--animate"
  ∧ tokenize ("x" +:+ String " "
                (String JS.dquote ("a b" +:+ String JS.dquote "c")))
    = tokenize "x" ++ ["a bc"].
Proof.
  split.
  - exact (proj2 (quoted_span_is_one_token "draw --title" "my 'old' cat"
                    EmptyString "--animate" JS.dquote
                    eq_refl eq_refl eq_refl eq_refl)).
  - exact (proj1 (quoted_span_is_one_token "x" "a b" "c" EmptyString
                    JS.dquote eq_refl eq_refl eq_refl eq_refl)).
Defined.

(** ** The parser: arguments and flags *)

Lemma startsWith_long_dash (tok : string) :
  JS.startsWith "-" tok = false → JS.startsWith "--" tok = false.
Proof.
  destruct tok as [|a tok]; [done|]. cbn [JS.startsWith].
  by destruct (Ascii.eqb "-" a).
Qed.

(** Tokens without a leading dash are all positional. *)
Lemma parseTokens_positional (rest args : list string)
    (flags : gmap string FlagValue) :
  Forall (λ tok, JS.startsWith "-" tok = false) rest →
  parseTokens rest (args, flags) = (args ++ rest, flags).
Proof.
  revert args. induction rest as [|part rest IH]; intros args Hall.
  - by rewrite app_nil_r.
  - apply Forall_cons in Hall as [Hpart Hall].
    pose proof (startsWith_long_dash part Hpart) as Hlong.
    destruct rest as [|next rest].
    + by rewrite parseTokens_last, Hlong, Hpart.
    + rewrite parseTokens_two, Hlong, Hpart. cbn [andb fst snd].
      rewrite IH by done. by rewrite <- app_assoc.
Qed.

(** X4.  A command line on which no token after the command begins with
    a dash has all those tokens as its arguments, in order, and no
    flag. *)
Theorem dashless_line_has_only_args (input first : string)
    (rest : list string) :
  tokenize (JS.trim input) = first :: rest →
  Forall (λ tok, JS.startsWith "-" tok = false) rest →
  args (parseCommand input) = rest ∧ flags (parseCommand input) = ∅.
Proof.
  intros Htok Hall. rewrite parseCommand_tokens, Htok. cbn [args flags].
  by rewrite parseTokens_positional.
Qed.

Lemma dashless_line_has_only_args_witness :
  args (parseCommand "search mario ascii art") = ["mario"; "ascii"; "art"]
  ∧ flags (parseCommand "search mario ascii art") = ∅.
Proof.
  refine (dashless_line_has_only_args "search mario ascii art" "search"
            ["mario"; "ascii"; "art"] eq_refl _).
  repeat constructor.
Defined.

(** The arguments that the loop adds are tokens of the line, in the order
    of the line. *)
Lemma parseTokens_args_sublist (rest : list string) (args : list string)
    (flags : gmap string FlagValue) :
  ∃ more, (parseTokens rest (args, flags)).1 = args ++ more
          ∧ sublist more rest.
Proof.
  remember (length rest) as n eqn:Hn.
  revert rest args flags Hn.
  induction n as [n IH] using lt_wf_ind; intros rest args flags ->.
  destruct rest as [|part rest].
  { exists []. by rewrite app_nil_r. }
  assert (∀ a f, ∃ more, (parseTokens rest (a, f)).1 = a ++ more
                         ∧ sublist more (part :: rest)) as IH1.
  { intros a f. destruct (IH (length rest) ltac:(simpl; lia) rest a f eq_refl)
      as (more & Hmore & Hsub).
    exists more. split; [done|]. by apply sublist_cons. }
  destruct rest as [|next rest].
  - rewrite parseTokens_last. cbn [fst snd].
    token_cases part;
      first [ by exists [part]
            | exists []; rewrite app_nil_r; split; [done|apply sublist_nil_l] ].
  - assert (∀ a f, ∃ more, (parseTokens rest (a, f)).1 = a ++ more
                           ∧ sublist more (part :: next :: rest)) as IH2.
    { intros a f.
      destruct (IH (length rest) ltac:(simpl; lia) rest a f eq_refl)
        as (more & Hmore & Hsub).
      exists more. split; [done|]. by do 2 apply sublist_cons. }
    rewrite parseTokens_two. cbn [fst snd].
    token_cases part; try apply IH1;
      try (next_cases next; [apply IH2 | apply IH1]).
    destruct (IH (S (length rest)) ltac:(simpl; lia) (next :: rest)
                (args ++ [part]) flags eq_refl) as (more & Hmore & Hsub).
    exists (part :: more). rewrite Hmore, <- app_assoc.
    split; [done|]. by apply sublist_skip.
Qed.

(** X5.  The arguments of a parsed command are tokens of the line after
    the command, in the order of the line: the parser adds, repeats and
    reorders nothing. *)
Theorem args_are_tokens_in_order (input : string) :
  sublist (args (parseCommand input)) (drop 1 (tokenize (JS.trim input))).
Proof.
  rewrite parseCommand_tokens.
  destruct (tokenize (JS.trim input)) as [|first rest]; [constructor|].
  cbn [args]. simpl drop. rewrite drop_0.
  by destruct (parseTokens_args_sublist rest [] ∅) as (more & -> & Hsub).
Qed.

(** An invariant of the loop: what holds of the arguments and flags at the
    start, and is kept by adding an argument and by setting a flag to a
    string or to [true], holds at the end. *)
Lemma parseTokens_invariant
    (P : list string * gmap string FlagValue → Prop) (rest : list string) :
  (∀ st part, P st → P (st.1 ++ [part], st.2)) →
  (∀ st name value, P st → P (st.1, setFlag name (FStr value) st.2)) →
  (∀ st name, P st → P (st.1, setFlag name (FBool true) st.2)) →
  ∀ st, P st → P (parseTokens rest st).
Proof.
  intros Harg Hstr Htrue.
  remember (length rest) as n eqn:Hn.
  revert rest Hn.
  induction n as [n IH] using lt_wf_ind; intros rest -> st Hst.
  destruct rest as [|part rest]; [done|].
  assert (∀ st', P st' → P (parseTokens rest st')) as IH1.
  { eapply IH; [|reflexivity]. simpl. lia. }
  destruct rest as [|next rest].
  - rewrite parseTokens_last. token_cases part; auto.
  - assert (∀ st', P st' → P (parseTokens rest st')) as IH2.
    { eapply IH; [|reflexivity]. simpl. lia. }
    rewrite parseTokens_two.
    token_cases part; try next_cases next; auto.
Qed.

(** X6.  A flag is never stored as [false]: every value in [flags] is a
    string or [true]. *)
Theorem flags_are_strings_or_true (input : string) (name : string) :
  flags (parseCommand input) !! name ≠ Some (FBool false).
Proof.
  rewrite parseCommand_tokens.
  destruct (tokenize (JS.trim input)) as [|first rest]; [done|].
  cbn [flags].
  apply (parseTokens_invariant
           (λ st, ∀ k, st.2 !! k ≠ Some (FBool false)) rest);
    cbn [fst snd]; try done.
  - intros st k value Hst k'. unfold setFlag.
    destruct (String.eqb k "__proto__"); [done|].
    destruct (decide (k = k')) as [->|Hne];
      [by rewrite lookup_insert_eq | by rewrite lookup_insert_ne].
  - intros st k Hst k'. unfold setFlag.
    destruct (String.eqb k "__proto__"); [done|].
    destruct (decide (k = k')) as [->|Hne];
      [by rewrite lookup_insert_eq | by rewrite lookup_insert_ne].
Qed.

Lemma setFlag_lookup (name : string) (value : FlagValue)
    (flags : gmap string FlagValue) :
  name ≠ "__proto__" → setFlag name value flags !! name = Some value.
Proof.
  intros Hname. unfold setFlag.
  destruct (String.eqb_spec name "__proto__"); [done|].
  apply lookup_insert_eq.
Qed.

(** X7.  The last occurrence of a flag wins: whatever the tokens before
    it have stored, a flag without a value of its own at the end of the
    line is [true], and one followed by a last token that does not begin
    with a dash has that token as its value.  That is so for every flag
    name but [__proto__], under which no input ever stores anything. *)
Theorem last_flag_occurrence_wins :
  (∀ (input first : string) (pre : list string) (tok name : string),
      flagWithoutValue tok = Some name →
      name ≠ "__proto__" →
      (tokenize (JS.trim input) = first :: pre ++ [tok] →
       flags (parseCommand input) !! name = Some (FBool true))
      ∧ (∀ value,
            tokenize (JS.trim input) = first :: pre ++ [tok; value] →
            JS.startsWith "-" value = false →
            flags (parseCommand input) !! name = Some (FStr value)))
  ∧ (∀ input, flags (parseCommand input) !! "__proto__" = None).
Proof.
  split.
  - intros input first pre tok name Hflag Hname.
    pose proof (startsWith_dash_of_flag tok name Hflag) as Hdash.
    unfold flagWithoutValue in Hflag.
    split.
    + intros Htok. rewrite parseCommand_tokens, Htok. cbn [flags].
      rewrite parseTokens_before_dash, parseTokens_last by done.
      destruct (JS.startsWith "--" tok).
      * destruct (JS.includes "=" (JS.slice 2 tok)); [done|].
        assert (name = JS.slice 2 tok) as -> by congruence.
        by apply setFlag_lookup.
      * destruct (JS.startsWith "-" tok && (String.length tok =? 2)%nat);
          [|done].
        assert (name = JS.slice 1 tok) as -> by congruence.
        by apply setFlag_lookup.
    + intros value Htok Hvalue. rewrite parseCommand_tokens, Htok.
      cbn [flags].
      rewrite parseTokens_before_dash, parseTokens_two, Hvalue by done.
      cbn [negb].
      destruct (JS.startsWith "--" tok).
      * destruct (JS.includes "=" (JS.slice 2 tok)); [done|].
        assert (name = JS.slice 2 tok) as -> by congruence.
        by apply setFlag_lookup.
      * destruct (JS.startsWith "-" tok && (String.length tok =? 2)%nat);
          [|done].
        assert (name = JS.slice 1 tok) as -> by congruence.
        by apply setFlag_lookup.
  - intros input. rewrite parseCommand_tokens.
    destruct (tokenize (JS.trim input)) as [|first rest]; [done|].
    cbn [flags].
    apply (parseTokens_invariant (λ st, st.2 !! "__proto__" = None) rest);
      cbn [fst snd]; try done.
    + intros st k value Hst. unfold setFlag.
      destruct (String.eqb_spec k "__proto__"); [done|].
      by rewrite lookup_insert_ne.
    + intros st k Hst. unfold setFlag.
      destruct (String.eqb_spec k "__proto__"); [done|].
      by rewrite lookup_insert_ne.
Qed.

Lemma last_flag_occurrence_wins_witness :
  flags (parseCommand "draw cat -w 10 --width 20 -w 30") !! "w"
  = Some (FStr "30").
Proof.
  refine (proj2 (proj1 last_flag_occurrence_wins
                   "draw cat -w 10 --width 20 -w 30" "draw"
                   ["cat"; "-w"; "10"; "--width"; "20"] "-w" "w"
                   eq_refl _)
            "30" eq_refl eq_refl).
  discriminate.
Defined.

(** ** Lower case *)

Lemma lowerChar_idempotent (c : ascii) :
  JS.lowerChar (JS.lowerChar c) = JS.lowerChar c.
Proof. destruct c as [[] [] [] [] [] [] [] []]; reflexivity. Qed.

Lemma toLowerCase_idempotent (s : string) :
  JS.toLowerCase (JS.toLowerCase s) = JS.toLowerCase s.
Proof.
  induction s as [|c s IH]; [reflexivity|].
  cbn [JS.toLowerCase]. by rewrite lowerChar_idempotent, IH.
Qed.

(** X8.  The command of a parsed line is in lower case, so the registry
    test and the [switch] of the executor see the same name;
    [isValidCommand] itself does not look at the case of its argument,
    and accepts exactly the names whose lower case is in the registry. *)
Theorem command_names_ignore_case :
  (∀ input, JS.toLowerCase (command (parseCommand input))
            = command (parseCommand input))
  ∧ (∀ name, isValidCommand (JS.toLowerCase name) = isValidCommand name)
  ∧ (∀ name, isValidCommand name = true
             ↔ JS.toLowerCase name ∈ validCommands).
Proof.
  split; [|split].
  - intros input. rewrite parseCommand_tokens.
    destruct (tokenize (JS.trim input)); [reflexivity|].
    apply toLowerCase_idempotent.
  - intros name. unfold isValidCommand. by rewrite toLowerCase_idempotent.
  - intros name. unfold isValidCommand, JS.arrayIncludes.
    apply bool_decide_eq_true.
Qed.

(** ** Suggestions *)

Lemma startsWith_empty (s : string) : JS.startsWith EmptyString s = true.
Proof. by destruct s. Qed.

(** X9.  The suggestions for a prefix are entries of the table, in the
    order of the table; the case of the prefix does not matter; and the
    empty prefix suggests the whole table. *)
Theorem suggestions_ignore_case :
  (∀ partial, sublist (getSuggestions partial) commands)
  ∧ (∀ partial,
        getSuggestions (JS.toLowerCase partial) = getSuggestions partial)
  ∧ getSuggestions EmptyString = commands.
Proof.
  split; [|split].
  - intros partial. apply sublist_filter.
  - intros partial. unfold getSuggestions.
    by rewrite toLowerCase_idempotent.
  - reflexivity.
Qed.

(** X10.  Every suggestion, for every prefix, is a line that
    [parseCommand] reads as a registered command. *)
Theorem suggestions_are_registered_commands (partial : string) :
  Forall (λ line, isValidCommand (command (parseCommand line)) = true)
         (getSuggestions partial).
Proof.
  assert (Forall (λ line, isValidCommand (command (parseCommand line)) = true)
                 commands) as Hall.
  { unfold commands. repeat (constructor; [reflexivity|]). constructor. }
  rewrite Forall_forall in Hall |- *.
  intros line Hin. apply Hall.
  eapply list_subseteq_filter. exact Hin.
Qed.

(** ** The executor: dispatch and handlers *)

Section ExecutorExtras.

Context (mathBackend : string → option string).
Context (JSValue : Type) (runFunction : string → option JSValue)
        (toStr : JSValue → string).
Context (executeHelp : list string → CommandResult)
        (executeDraw : list string → gmap string FlagValue → CommandResult)
        (executePhysics executeSearch : list string → CommandResult)
        (executeAbout : CommandResult).

Local Abbreviation execute :=
  (executeCommand mathBackend JSValue runFunction toStr executeHelp
     executeDraw executePhysics executeSearch executeAbout).

(** X11.  Only two commands touch the host: [exit], which leaves 3D mode
    and keeps the hologram data, and [hologram].  Every other command,
    the blank line and the unknown ones included, leaves the host as it
    is, whatever its handler returns. *)
Theorem only_hologram_and_exit_touch_the_host
    (parsed : ParsedCommand) (host : Host) :
  (command parsed ≠ "hologram" → command parsed ≠ "exit" →
   (execute parsed host).2 = host)
  ∧ (command parsed = "exit" →
     execute parsed host
     = (result true "Exited 3D mode" TInfo,
        {| hologramMode := false; hologramData := hologramData host |}))
  ∧ (command parsed = "hologram" →
     execute parsed host = executeHologram (args parsed) host).
Proof.
  split; [|split].
  - intros Hholo%String.eqb_neq Hexit%String.eqb_neq.
    unfold executeCommand. cbv zeta. rewrite Hholo, Hexit.
    repeat match goal with
           | |- context [if ?b then _ else _] => destruct b
           end; reflexivity.
  - intros Hexit. unfold executeCommand. by rewrite Hexit.
  - intros Hholo. unfold executeCommand. by rewrite Hholo.
Qed.

(** X12.  The last branch of the [switch], Command not implemented, is
    taken exactly by a name that the registry accepts through its lower
    case but that is not itself in the registry, such as HELP in a
    command built by hand.  The command of a parsed line never takes
    it: when the registry accepts it, it is in the registry. *)
Theorem not_implemented_only_for_capitals :
  (∀ (parsed : ParsedCommand) (host : Host),
      isValidCommand (command parsed) = true →
      command parsed ∉ validCommands →
      execute parsed host
      = (result false "Command not implemented" TError, host))
  ∧ (∀ input,
        isValidCommand (command (parseCommand input)) = true →
        command (parseCommand input) ∈ validCommands).
Proof.
  split.
  - intros parsed host Hvalid Hnot.
    assert (JS.truthy (command parsed) = true) as Htruthy.
    { destruct (command parsed); [discriminate Hvalid | reflexivity]. }
    assert (∀ name, bool_decide (name ∈ validCommands) = true →
                    String.eqb (command parsed) name = false) as Hne.
    { intros name Hin%bool_decide_eq_true. apply String.eqb_neq.
      by intros <-. }
    unfold executeCommand. cbv zeta. rewrite Htruthy, Hvalid.
    cbn [negb].
    rewrite !Hne by reflexivity.
    reflexivity.
  - intros input Hvalid.
    apply bool_decide_eq_true in Hvalid.
    rewrite parseCommand_tokens in *.
    destruct (tokenize (JS.trim input)); cbn [command] in *;
      [done|].
    by rewrite toLowerCase_idempotent in Hvalid.
Qed.

End ExecutorExtras.

Lemma only_hologram_and_exit_touch_the_host_witness :
  (executeCommand (λ _, None) string (λ _, None) id (λ _, noOutput)
     (λ _ _, noOutput) (λ _, noOutput) (λ _, noOutput) noOutput
     (parseCommand "upload video") (mkHost true (Some ("dna", "HI")))).2
  = mkHost true (Some ("dna", "HI")).
Proof.
  refine (proj1 (only_hologram_and_exit_touch_the_host (λ _, None) string
                   (λ _, None) id (λ _, noOutput) (λ _ _, noOutput)
                   (λ _, noOutput) (λ _, noOutput) noOutput
                   (parseCommand "upload video")
                   (mkHost true (Some ("dna", "HI")))) _ _);
    discriminate.
Defined.

Lemma not_implemented_only_for_capitals_witness :
  executeCommand (λ _, None) string (λ _, None) id (λ _, noOutput)
    (λ _ _, noOutput) (λ _, noOutput) (λ _, noOutput) noOutput
    (mkParsed "HELP" [] ∅ "HELP") (mkHost false None)
  = (result false "Command not implemented" TError, mkHost false None).
Proof.
  refine (proj1 (not_implemented_only_for_capitals (λ _, None) string
                   (λ _, None) id (λ _, noOutput) (λ _ _, noOutput)
                   (λ _, noOutput) (λ _, noOutput) noOutput)
            (mkParsed "HELP" [] ∅ "HELP") (mkHost false None) eq_refl _).
  apply (proj1 (bool_decide_eq_false
                  (command (mkParsed "HELP" [] ∅ "HELP") ∈ validCommands))).
  reflexivity.
Defined.

(** X13.  [executeHologram] succeeds exactly when the type, cube when the
    argument is missing or empty, is one of the six known types, compared
    as typed.  Then the host is in 3D mode with that type and the second
    argument, HELLO by default, as text; otherwise the result is an error
    and the host is left as it is. *)
Theorem hologram_needs_a_known_type (args : list string) (host : Host) :
  let shape := orDefault (args !! 0%nat) "cube" in
  (success (executeHologram args host).1 = true ↔ shape ∈ validTypes)
  ∧ (shape ∈ validTypes →
     (executeHologram args host).2
     = {| hologramMode := true;
          hologramData := Some (shape, orDefault (args !! 1%nat) "HELLO") |}
     ∧ powerUp (executeHologram args host).1 = Some "mushroom")
  ∧ (shape ∉ validTypes →
     (executeHologram args host).2 = host
     ∧ type (executeHologram args host).1 = TError).
Proof.
  intros shape. unfold executeHologram. fold shape. unfold JS.arrayIncludes.
  destruct (bool_decide_reflect (shape ∈ validTypes)) as [Hin|Hnot];
    cbn [negb fst snd success powerUp type].
  - split; [done|]. split; [done|]. intros Hnot. by destruct Hnot.
  - split; [split; [discriminate | done]|].
    split; [done|]. by intros _.
Qed.

Lemma hologram_needs_a_known_type_witness :
  (executeHologram ["dna"] (mkHost false None)).2
  = mkHost true (Some ("dna", "HELLO"))
  ∧ (executeHologram ["Cube"; "hi"] (mkHost false None)).2
    = mkHost false None.
Proof.
  split.
  - refine (proj1 (proj1 (proj2 (hologram_needs_a_known_type ["dna"]
                                   (mkHost false None))) _)).
    exact (proj1 (bool_decide_eq_true
                    (orDefault (["dna"] !! 0%nat) "cube" ∈ validTypes))
             eq_refl).
  - refine (proj1 (proj2 (proj2 (hologram_needs_a_known_type ["Cube"; "hi"]
                                   (mkHost false None))) _)).
    exact (proj1 (bool_decide_eq_false
                    (orDefault (["Cube"; "hi"] !! 0%nat) "cube"
                     ∈ validTypes))
             eq_refl).
Defined.

(** ** The executor: solve *)

Lemma keepChars_kept (keep : ascii → bool) (s : string) :
  JS.allChars keep (keepChars keep s) = true.
Proof.
  induction s as [|c s IH]; [reflexivity|].
  cbn [keepChars]. destruct (keep c) eqn:Hc; [|done].
  cbn [JS.allChars]. by rewrite Hc, IH.
Qed.

Lemma keepChars_all (keep : ascii → bool) (s : string) :
  JS.allChars keep s = true → keepChars keep s = s.
Proof.
  induction s as [|c s IH]; [reflexivity|].
  cbn [JS.allChars keepChars]. intros [Hc Hs]%andb_true_iff.
  by rewrite Hc, IH.
Qed.

Lemma keepChars_length (keep : ascii → bool) (s : string) :
  (String.length (keepChars keep s) ≤ String.length s)%nat.
Proof.
  induction s as [|c s IH]; [reflexivity|].
  cbn [keepChars]. destruct (keep c); cbn [String.length]; lia.
Qed.

(** X14.  What the fallback of [executeSolve] hands to the engine is made
    only of digits, the characters of [+-*/().sqrt] and whitespace; an
    expression made of such characters is handed over as it is, and
    sanitizing twice changes nothing more. *)
Theorem sanitize_keeps_only_its_class (expression : string) :
  JS.allChars solveKeeps (sanitize expression) = true
  ∧ sanitize (sanitize expression) = sanitize expression
  ∧ (JS.allChars solveKeeps expression = true →
     sanitize expression = expression)
  ∧ (String.length (sanitize expression) ≤ String.length expression)%nat.
Proof.
  unfold sanitize. split; [apply keepChars_kept|].
  split; [apply keepChars_all, keepChars_kept|].
  split; [apply keepChars_all | apply keepChars_length].
Qed.

Lemma sanitize_keeps_only_its_class_witness :
  JS.allChars solveKeeps "sqrt(16) + 2" = true
  ∧ sanitize "sqrt(16) + 2" = "sqrt(16) + 2".
Proof.
  split; [reflexivity|].
  exact (proj1 (proj2 (proj2 (sanitize_keeps_only_its_class "sqrt(16) + 2")))
           eq_refl).
Defined.

(** X15.  [executeSolve] succeeds exactly when there is an argument and
    either the backend answers or the engine returns a value for the
    sanitized expression; when the backend answers, the engine is not
    asked. *)
Theorem solve_succeeds_by_backend_or_engine
    (mathBackend : string → option string) (JSValue : Type)
    (runFunction : string → option JSValue) (toStr : JSValue → string)
    (args : list string) :
  let expression := JS.join " " args in
  (success (executeSolve mathBackend JSValue runFunction toStr args) = true
   ↔ args ≠ []
     ∧ (is_Some (mathBackend expression)
        ∨ is_Some (runFunction (strictReturn (sanitize expression)))))
  ∧ (∀ r otherEngine,
        args ≠ [] → mathBackend expression = Some r →
        executeSolve mathBackend JSValue otherEngine toStr args
        = result true
            ("Expression: " +:+ expression +:+ nl +:+ "Result: " +:+ r)
            TInfo).
Proof.
  intros expression. unfold executeSolve, solveFallback. fold expression.
  destruct args as [|arg args]; cbn [length Nat.eqb].
  { split; [|done]. split; [discriminate | by intros [? _]]. }
  split.
  - destruct (mathBackend expression) as [r|] eqn:Hback.
    + split; [|done]. intros _. split; [done|]. left. by eexists.
    + destruct (runFunction (strictReturn (sanitize expression)))
        as [v|] eqn:Hrun; cbn [success result].
      * split; [|done]. intros _. split; [done|]. right. by eexists.
      * split; [discriminate|].
        intros [_ [[? ?]|[? ?]]]; discriminate.
  - intros r otherEngine _ Hback. by rewrite Hback.
Qed.

Lemma solve_succeeds_by_backend_or_engine_witness :
  executeSolve (λ expression, Some "4") string (λ _, None) id ["2+2"]
  = result true ("Expression: 2+2" +:+ nl +:+ "Result: 4") TInfo.
Proof.
  refine (proj2 (solve_succeeds_by_backend_or_engine (λ expression, Some "4")
                   string (λ _, None) id ["2+2"]) "4" (λ _, None) _ eq_refl).
  discriminate.
Defined.

(** ** The executor: chemistry, physics, search *)

(** X16.  [executeChemistry] succeeds exactly on no argument at all (the
    help) and on the element sub-command, in any case, followed by a
    non-empty symbol, whether the symbol is in its table or not; the
    symbol is looked up in lower case. *)
Theorem chemistry_succeeds_only_for_element (args : list string) :
  (success (executeChemistry args) = true
   ↔ args = []
     ∨ ∃ sub symbol rest,
         args = sub :: symbol :: rest
         ∧ JS.toLowerCase sub = "element" ∧ symbol ≠ EmptyString)
  ∧ (∀ sub symbol rest info,
        args = sub :: symbol :: rest →
        JS.toLowerCase sub = "element" →
        elements !! JS.toLowerCase symbol = Some info →
        executeChemistry args = result true info TInfo).
Proof.
  split.
  - destruct args as [|sub [|symbol rest]]; cbn.
    + split; [by left | done].
    + split; [discriminate|].
      intros [?|(? & ? & ? & ? & _)]; discriminate.
    + destruct (String.eqb_spec (JS.toLowerCase sub) "element") as [Hsub|Hsub];
        cbn [andb].
      * destruct symbol as [|c symbol]; cbn [JS.truthy success result].
        -- split; [discriminate|].
           intros [?|(? & ? & ? & [= <- <- <-] & _ & Hne)]; done.
        -- split; [|done]. intros _. right. by eexists _, _, _.
      * split; [discriminate|].
        intros [?|(? & ? & ? & [= <- <- <-] & Heq & _)]; done.
  - intros sub symbol rest info -> Hsub Hinfo.
    assert (JS.truthy symbol = true) as Hsym.
    { destruct symbol; [discriminate Hinfo | reflexivity]. }
    unfold executeChemistry, elementsOr.
    change ((sub :: symbol :: rest) !! 1%nat) with (Some symbol).
    by rewrite Hsub, Hsym, Hinfo.
Qed.

(** A symbol that is a name the table inherits is found there, and the
    output is then no string; any other symbol outside the table gets
    the text of the handler. *)
Example chemistry_inherited_symbol :
  output (executeChemistry ["element"; "Constructor"])
  = Inherited "constructor"
  ∧ output (executeChemistry ["element"; "Xx"])
    = Text ("Element " +:+ quoted "Xx" +:+ " not in database.").
Proof. split; reflexivity. Qed.

Lemma chemistry_succeeds_only_for_element_witness :
  executeChemistry ["ELEMENT"; "Fe"; "now"]
  = result true "Iron (Fe) - Atomic #26, Mass: 55.845" TInfo.
Proof.
  exact (proj2 (chemistry_succeeds_only_for_element ["ELEMENT"; "Fe"; "now"])
           "ELEMENT" "Fe" ["now"] _ eq_refl eq_refl eq_refl).
Defined.

(** X17.  [executePhysics] succeeds exactly on no argument (the help), on
    projectile with at least two more arguments and on freefall with at
    least one more, the name in any case.  Every other name is an error,
    momentum included, which the help lists; and values given as flags
    do not count: the line that [getSuggestions] offers for projectile,
    with its two values as flags, is an error. *)
Theorem physics_succeeds_only_for_two_formulas
    (projectileReport : string → string → string)
    (freefallReport : string → string) (words : list string) :
  let physics := Handlers.executePhysics projectileReport freefallReport in
  (success (physics words) = true
   ↔ words = []
     ∨ ∃ name rest,
         words = name :: rest
         ∧ (JS.toLowerCase name = "projectile" ∧ (2 ≤ length rest)%nat
            ∨ JS.toLowerCase name = "freefall" ∧ (1 ≤ length rest)%nat))
  ∧ (∀ name rest,
        JS.toLowerCase name = "momentum" →
        physics (name :: rest) = result false Handlers.physicsInvalid TError)
  ∧ Handlers.includesStr "physics momentum <mass> <velocity>"
      Handlers.physicsHelp = true
  ∧ physics (args (parseCommand "physics projectile --velocity 20 --angle 45"))
    = result false Handlers.physicsInvalid TError.
Proof.
  intros physics. subst physics.
  split; [|split; [|split; reflexivity]].
  - destruct words as [|name rest]; [by split; [left|]|].
    unfold Handlers.executePhysics.
    destruct (String.eqb_spec (JS.toLowerCase name) "projectile")
      as [Hproj|Hproj].
    + destruct (Nat.leb_spec 3 (length (name :: rest))) as [Hlen|Hlen];
        cbn [andb].
      * split; [|done]. intros _. right. exists name, rest.
        split; [done|]. left. split; [done|]. simpl in Hlen. lia.
      * rewrite Hproj. cbn [String.eqb andb success result].
        split; [discriminate|].
        intros [?|(? & ? & [= <- <-] & [[_ ?]|[? _]])];
          [done | simpl in Hlen; lia | congruence].
    + cbn [andb].
      destruct (String.eqb_spec (JS.toLowerCase name) "freefall")
        as [Hfree|Hfree].
      * destruct (Nat.leb_spec 2 (length (name :: rest))) as [Hlen|Hlen];
          cbn [andb success result].
        -- split; [|done]. intros _. right. exists name, rest.
           split; [done|]. right. split; [done|]. simpl in Hlen. lia.
        -- split; [discriminate|].
           intros [?|(? & ? & [= <- <-] & [[? _]|[_ ?]])];
             [done | congruence | simpl in Hlen; lia].
      * cbn [andb success result]. split; [discriminate|].
        intros [?|(? & ? & [= <- <-] & [[? _]|[? _]])]; done.
  - intros name rest Hname. unfold Handlers.executePhysics.
    by rewrite Hname.
Qed.

Lemma physics_succeeds_only_for_two_formulas_witness :
  Handlers.executePhysics (λ _ _, "range") (λ _, "fall") ["Momentum"; "2"; "3"]
  = result false Handlers.physicsInvalid TError.
Proof.
  exact (proj1 (proj2 (physics_succeeds_only_for_two_formulas
                         (λ _ _, "range") (λ _, "fall") []))
           "Momentum" ["2"; "3"] eq_refl).
Defined.

(** X18.  [executeSearch] fails only on an empty argument list: for a
    query it always reports success, whether the web search answers or
    not and whether the local library has a matching name or not.  With
    the web search out of reach, the local names are matched against
    the query in lower case. *)
Theorem search_fails_only_without_query
    (webSearch : string → option string) (artNames : list string)
    (words : list string) :
  (success (Handlers.executeSearch webSearch artNames words) = true
   ↔ words ≠ [])
  ∧ (∀ other,
        webSearch (JS.join " " words) = None →
        webSearch (JS.join " " other) = None →
        JS.toLowerCase (JS.join " " words) = JS.toLowerCase (JS.join " " other) →
        words ≠ [] → other ≠ [] →
        filter (λ name, Handlers.includesStr
                          (JS.toLowerCase (JS.join " " words)) name = true)
               artNames ≠ [] →
        Handlers.executeSearch webSearch artNames words
        = Handlers.executeSearch webSearch artNames other).
Proof.
  split.
  - unfold Handlers.executeSearch.
    destruct words as [|word words]; cbn [length Nat.eqb].
    { split; [discriminate | done]. }
    split; [done|]. intros _.
    destruct (webSearch (JS.join " " (word :: words))); [done|].
    by destruct (filter _ artNames).
  - intros other Hweb Hweb' Hlower Hwords Hother Hfound.
    unfold Handlers.executeSearch.
    destruct words as [|word words]; [done|].
    destruct other as [|word' other]; [done|].
    cbn [length Nat.eqb]. rewrite Hweb, Hweb', <- Hlower.
    by destruct (filter _ artNames).
Qed.

Lemma search_fails_only_without_query_witness :
  Handlers.executeSearch (λ _, None) ["cat"; "mario"; "rocket"] ["MARIO"]
  = Handlers.executeSearch (λ _, None) ["cat"; "mario"; "rocket"] ["Mario"].
Proof.
  refine (proj2 (search_fails_only_without_query (λ _, None)
                   ["cat"; "mario"; "rocket"] ["MARIO"])
            ["Mario"] eq_refl eq_refl eq_refl _ _ _); discriminate.
Defined.

(** ** The store: bounded histories *)

Lemma lastN_length {A : Type} (n : nat) (xs : list A) :
  (length (Store.lastN n xs) ≤ n)%nat.
Proof. unfold Store.lastN. rewrite length_drop. lia. Qed.

Lemma lastN_short {A : Type} (n : nat) (xs : list A) :
  (length xs ≤ n)%nat → Store.lastN n xs = xs.
Proof.
  intros Hlen. unfold Store.lastN.
  by replace (length xs - n)%nat with 0%nat by lia.
Qed.

(** Dropping first from the front no more than [lastN] would drop does
    not change the result. *)
Lemma lastN_drop_app {A : Type} (n a : nat) (xs ys : list A) :
  (a ≤ length xs - n)%nat →
  Store.lastN n (drop a xs ++ ys) = Store.lastN n (xs ++ ys).
Proof.
  intros Ha. unfold Store.lastN.
  rewrite !length_app, length_drop.
  replace (length xs + length ys - n)%nat
    with (a + (length xs - a + length ys - n))%nat by lia.
  rewrite <- drop_drop. f_equal.
  rewrite drop_app_le by lia. reflexivity.
Qed.

Lemma lastN_snoc_last {A : Type} (n : nat) (xs : list A) (x : A) :
  (0 < n)%nat → last (Store.lastN n (xs ++ [x])) = Some x.
Proof.
  intros Hn. unfold Store.lastN. rewrite length_app. cbn [length].
  rewrite drop_app_le by lia. apply last_snoc.
Qed.

Section StoreProperties.

Context {HologramData : Type}.

Local Abbreviation State := (Store.AppState HologramData).

(** X19.  The histories of the store are bounded: whatever actions run,
    from the initial state or from any state within the bounds, the
    command history never has more than 100 entries and the output
    history never more than 500. *)
Theorem store_histories_are_bounded
    (actions : list (Store.Action HologramData)) (state : State) :
  (length (Store.commandHistory _ state) ≤ 100)%nat →
  (length (Store.outputHistory _ state) ≤ 500)%nat →
  (length (Store.commandHistory _ (Store.run _ actions state)) ≤ 100)%nat
  ∧ (length (Store.outputHistory _ (Store.run _ actions state)) ≤ 500)%nat.
Proof.
  revert state. unfold Store.run.
  induction actions as [|action actions IH]; intros state Hcmd Hout;
    [done|].
  cbn [fold_left]. apply IH.
  - destruct action; cbn; try done; try lia. apply lastN_length.
  - destruct action; cbn; try done; try lia. apply lastN_length.
Qed.

(** X20.  The command history is the last 100 commands: after a series
    of [addCommand] on a history within the bound, it holds the last 100
    entries of the former history followed by the commands, in order,
    the newest last. *)
Theorem command_history_keeps_the_last_100
    (cmds : list string) (state : State) :
  (length (Store.commandHistory _ state) ≤ 100)%nat →
  Store.commandHistory _
    (Store.run _ (map (Store.AddCommand _) cmds) state)
  = Store.lastN 100 (Store.commandHistory _ state ++ cmds)
  ∧ (∀ cmd, last (Store.commandHistory _ (Store.addCommand _ cmd state))
            = Some cmd).
Proof.
  intros Hbound. split; [|intros cmd; apply lastN_snoc_last; lia].
  revert state Hbound. unfold Store.run.
  induction cmds as [|cmd cmds IH]; intros state Hbound.
  - cbn. rewrite app_nil_r. by rewrite lastN_short.
  - cbn [map fold_left Store.dispatch].
    rewrite IH by apply lastN_length.
    cbn [Store.commandHistory Store.addCommand].
    unfold Store.lastN at 2.
    rewrite lastN_drop_app by lia.
    by rewrite <- app_assoc.
Qed.

End StoreProperties.

Lemma store_histories_are_bounded_witness :
  (length (Store.commandHistory unit
             (Store.run unit
                (map (Store.AddCommand unit) (replicate 150 "help"))
                (Store.initialState unit))) ≤ 100)%nat.
Proof.
  refine (proj1 (store_histories_are_bounded
                   (map (Store.AddCommand unit) (replicate 150 "help"))
                   (Store.initialState unit) _ _));
    cbn; lia.
Defined.

Lemma command_history_keeps_the_last_100_witness :
  Store.commandHistory unit
    (Store.run unit (map (Store.AddCommand unit) ["help"; "clear"])
       (Store.run unit (map (Store.AddCommand unit) (replicate 100 "old"))
          (Store.initialState unit)))
  = replicate 98 "old" ++ ["help"; "clear"].
Proof.
  refine (eq_trans
            (proj1 (command_history_keeps_the_last_100 ["help"; "clear"]
                      (Store.run unit
                         (map (Store.AddCommand unit) (replicate 100 "old"))
                         (Store.initialState unit)) _))
            eq_refl).
  vm_compute. lia.
Defined.

(** ** Trimming *)

Lemma trimStart_startsClean (s : string) :
  startsClean (JS.trimStart s) = true.
Proof.
  induction s as [|c s IH]; [reflexivity|].
  cbn [JS.trimStart]. destruct (JS.isWhiteSpace c) eqn:Hc; [done|].
  cbn [startsClean]. by rewrite Hc.
Qed.

Lemma trimStart_clean (s : string) :
  startsClean s = true → JS.trimStart s = s.
Proof.
  destruct s as [|c s]; [done|]. cbn [startsClean JS.trimStart].
  by intros ->%negb_true_iff.
Qed.

Lemma trimEnd_startsClean (s : string) :
  startsClean s = true → startsClean (JS.trimEnd s) = true.
Proof.
  destruct s as [|c s]; [done|]. cbn [startsClean JS.trimEnd].
  intros Hc. apply negb_true_iff in Hc as Hc'.
  by rewrite Hc', andb_false_r.
Qed.

Lemma trimEnd_idempotent (s : string) :
  JS.trimEnd (JS.trimEnd s) = JS.trimEnd s.
Proof.
  induction s as [|c s IH]; [reflexivity|].
  cbn [JS.trimEnd].
  destruct (negb (JS.truthy (JS.trimEnd s)) && JS.isWhiteSpace c) eqn:Hdrop;
    [reflexivity|].
  cbn [JS.trimEnd]. by rewrite IH, Hdrop.
Qed.

Lemma trim_idempotent (s : string) : JS.trim (JS.trim s) = JS.trim s.
Proof.
  unfold JS.trim.
  rewrite (trimStart_clean (JS.trimEnd (JS.trimStart s)))
    by apply trimEnd_startsClean, trimStart_startsClean.
  apply trimEnd_idempotent.
Qed.

(** ** The prompt: line editing and history *)

Lemma executed_app (a b : list Prompt.Effect) :
  Prompt.executed (a ++ b) = Prompt.executed a ++ Prompt.executed b.
Proof.
  induction a as [|e a IH]; [reflexivity|].
  destruct e; cbn [app Prompt.executed]; by rewrite IH.
Qed.

Lemma executed_clearLine (line : string) :
  Prompt.executed (Prompt.clearLine line) = [].
Proof.
  unfold Prompt.clearLine.
  induction (String.length line) as [|n IH]; [reflexivity|]. exact IH.
Qed.

Lemma historyAt_in_range (history : list string) (i : Z) :
  (0 ≤ i < Z.of_nat (length history))%Z →
  Prompt.historyAt history i ∈ history.
Proof.
  intros Hi. unfold Prompt.historyAt.
  apply list_elem_of_In, nth_In. lia.
Qed.

(** The arrows read the history only inside its bounds: what they put on
    the line is an entry of the history, or nothing. *)
Lemma onKey_keeps_index_in_range (ev : Prompt.KeyEvent) (refs : Prompt.Refs) :
  (-1 ≤ Prompt.historyIndex refs
   ≤ Z.of_nat (length (Prompt.history refs)))%Z →
  Prompt.domKey ev = "ArrowUp" ∨ Prompt.domKey ev = "ArrowDown" →
  (Prompt.onKey ev refs).1 = refs
  ∨ Prompt.input (Prompt.onKey ev refs).1 = EmptyString
  ∨ Prompt.input (Prompt.onKey ev refs).1 ∈ Prompt.history refs.
Proof.
  intros Hidx [Hkey|Hkey]; unfold Prompt.onKey; rewrite Hkey;
    cbn [String.eqb Ascii.eqb Bool.eqb andb].
  - destruct ((0 <? _)%Z && (0 <? _)%Z) eqn:Hup; [|by left].
    apply andb_true_iff in Hup as [_ Hpos%Z.ltb_lt].
    right. right. cbn [fst Prompt.input]. apply historyAt_in_range. lia.
  - destruct (Prompt.historyIndex refs <? _)%Z eqn:Hdown.
    + apply Z.ltb_lt in Hdown.
      right. right. cbn [fst Prompt.input]. apply historyAt_in_range. lia.
    + destruct (Prompt.historyIndex refs =? _)%Z; [right; by left | by left].
Qed.

(** One key or one paste keeps the references well formed, and adds to
    the history exactly the commands it hands to [executeCommand]. *)
Lemma handle_wellFormed (incoming : Prompt.Incoming) (refs : Prompt.Refs) :
  Prompt.wellFormed refs →
  Prompt.wellFormed (Prompt.handle incoming refs).1
  ∧ Prompt.history (Prompt.handle incoming refs).1
    = Prompt.history refs ++ Prompt.executed (Prompt.handle incoming refs).2.
Proof.
  intros [Hidx Hhist]. destruct incoming as [ev|data]; cbn [Prompt.handle].
  - unfold Prompt.onKey.
    repeat match goal with
           | |- context [if ?b then _ else _] => destruct b eqn:?
           end;
      cbn [fst snd Prompt.history Prompt.historyIndex Prompt.executed];
      rewrite ?executed_app, ?executed_clearLine, ?app_nil_r;
      cbn [Prompt.executed app]; rewrite ?app_nil_r;
      (split; [|reflexivity]); split; cbn [Prompt.history Prompt.historyIndex];
      try done;
      repeat match goal with
             | H : (_ && _) = true |- _ => apply andb_true_iff in H as [? ?]
             | H : (_ <? _)%Z = true |- _ => apply Z.ltb_lt in H
             | H : (_ =? _)%Z = true |- _ => apply Z.eqb_eq in H
             end;
      try lia.
    (* Enter on a line that is not blank: the new entry *)
    apply Forall_app. split; [done|]. constructor; [|done].
    split; [done|]. apply trim_idempotent.
  - unfold Prompt.onData.
    destruct (_ && _); cbn [fst snd Prompt.history Prompt.executed];
      rewrite ?app_nil_r; by split.
Qed.

(** X21.  Whatever keys and pastes arrive, the history index stays
    between -1 and the length of the history, every entry of the history
    is a trimmed, non-empty line, and the history grows by exactly the
    commands handed to [executeCommand], in order: on a new terminal the
    history is the list of the commands run. *)
Theorem prompt_history_is_what_was_run
    (incomings : list Prompt.Incoming) (refs : Prompt.Refs) :
  Prompt.wellFormed refs →
  Prompt.wellFormed (Prompt.runAll incomings refs).1
  ∧ Prompt.history (Prompt.runAll incomings refs).1
    = Prompt.history refs
      ++ Prompt.executed (Prompt.runAll incomings refs).2.
Proof.
  revert refs. induction incomings as [|incoming incomings IH];
    intros refs Hwf.
  - cbn. by rewrite app_nil_r.
  - cbn [Prompt.runAll].
    destruct (handle_wellFormed incoming refs Hwf) as [Hwf' Hhist'].
    destruct (Prompt.handle incoming refs) as [refs' effects].
    destruct (IH refs' Hwf') as [Hwf'' Hhist''].
    destruct (Prompt.runAll incomings refs') as [refs'' effects'].
    cbn [fst snd] in *. split; [done|].
    by rewrite Hhist'', Hhist', executed_app, app_assoc.
Qed.

Lemma wellFormed_initialRefs : Prompt.wellFormed Prompt.initialRefs.
Proof. split; [cbn; lia | constructor]. Qed.

Lemma prompt_history_is_what_was_run_witness :
  Prompt.history
    (Prompt.runAll
       [Prompt.Key (Prompt.typed "h"); Prompt.Key (Prompt.typed "i");
        Prompt.Key (Prompt.named "Enter"); Prompt.Key (Prompt.named "Enter")]
       Prompt.initialRefs).1
  = [] ++ ["hi"].
Proof.
  exact (proj2 (prompt_history_is_what_was_run
                  [Prompt.Key (Prompt.typed "h"); Prompt.Key (Prompt.typed "i");
                   Prompt.Key (Prompt.named "Enter");
                   Prompt.Key (Prompt.named "Enter")]
                  Prompt.initialRefs wellFormed_initialRefs)).
Defined.

Lemma onKey_up (ev : Prompt.KeyEvent) (refs : Prompt.Refs) :
  Prompt.domKey ev = "ArrowUp" →
  (0 < Prompt.historyIndex refs ≤ Z.of_nat (length (Prompt.history refs)))%Z →
  Prompt.onKey ev refs
  = ({| Prompt.input :=
          Prompt.historyAt (Prompt.history refs)
            (Prompt.historyIndex refs - 1);
        Prompt.history := Prompt.history refs;
        Prompt.historyIndex := (Prompt.historyIndex refs - 1)%Z |},
     Prompt.clearLine (Prompt.input refs)
     ++ [Prompt.Write (Prompt.historyAt (Prompt.history refs)
                         (Prompt.historyIndex refs - 1))]).
Proof.
  intros Hkey Hidx. unfold Prompt.onKey. rewrite Hkey.
  cbn [String.eqb Ascii.eqb Bool.eqb andb].
  assert (((0 <? Z.of_nat (length (Prompt.history refs)))
           && (0 <? Prompt.historyIndex refs))%Z = true) as ->; [|done].
  apply andb_true_iff. split; apply Z.ltb_lt; lia.
Qed.

(** X22.  From any position in the history, pressing ArrowUp [k] times,
    [k] at most the position, goes back [k] commands: the line shows the
    command [k] places before, and the history is not changed.  At the
    oldest command, and on an empty history, ArrowUp does nothing. *)
Theorem arrow_up_recalls_commands (ev : Prompt.KeyEvent) :
  Prompt.domKey ev = "ArrowUp" →
  (∀ (k : nat) (refs : Prompt.Refs),
      (1 ≤ k)%nat →
      (Z.of_nat k ≤ Prompt.historyIndex refs
       ≤ Z.of_nat (length (Prompt.history refs)))%Z →
      (Prompt.runAll (repeat (Prompt.Key ev) k) refs).1
      = {| Prompt.input :=
             Prompt.historyAt (Prompt.history refs)
               (Prompt.historyIndex refs - Z.of_nat k);
           Prompt.history := Prompt.history refs;
           Prompt.historyIndex :=
             (Prompt.historyIndex refs - Z.of_nat k)%Z |})
  ∧ (∀ refs, (Prompt.historyIndex refs ≤ 0)%Z →
             Prompt.onKey ev refs = (refs, [])).
Proof.
  intros Hkey. split.
  - induction k as [|k IH]; intros refs Hk Hidx; [lia|].
    cbn [repeat Prompt.runAll Prompt.handle].
    rewrite (onKey_up ev refs Hkey) by lia.
    destruct k as [|k].
    + cbn [repeat Prompt.runAll fst]. reflexivity.
    + specialize (IH {| Prompt.input :=
                          Prompt.historyAt (Prompt.history refs)
                            (Prompt.historyIndex refs - 1);
                        Prompt.history := Prompt.history refs;
                        Prompt.historyIndex :=
                          (Prompt.historyIndex refs - 1)%Z |}).
      cbn [Prompt.history Prompt.historyIndex] in IH.
      destruct (Prompt.runAll (repeat (Prompt.Key ev) (S k)) _)
        as [refs' effects'] eqn:Hrun.
      cbn [fst] in *. rewrite IH by lia.
      by replace (Prompt.historyIndex refs - 1 - Z.of_nat (S k))%Z
        with (Prompt.historyIndex refs - Z.of_nat (S (S k)))%Z by lia.
  - intros refs Hidx. unfold Prompt.onKey. rewrite Hkey.
    cbn [String.eqb Ascii.eqb Bool.eqb andb].
    assert ((0 <? Prompt.historyIndex refs)%Z = false) as ->
      by (apply Z.ltb_ge; lia).
    by rewrite andb_false_r.
Qed.

Lemma arrow_up_recalls_commands_witness :
  (Prompt.runAll (repeat (Prompt.Key (Prompt.named "ArrowUp")) 2)
     (Prompt.mkRefs "dr" ["help"; "draw cat"; "clear"] 3)).1
  = Prompt.mkRefs "draw cat" ["help"; "draw cat"; "clear"] 1.
Proof.
  refine (proj1 (arrow_up_recalls_commands (Prompt.named "ArrowUp") eq_refl)
            2%nat (Prompt.mkRefs "dr" ["help"; "draw cat"; "clear"] 3) _ _);
    cbn; lia.
Defined.

(** X23.  ArrowDown at the newest command empties the line, so going up
    and back down does not bring back what was being typed.  On a new
    terminal, before any command, ArrowDown also erases the line being
    typed, once; after a command has been run, ArrowDown at the prompt
    does nothing. *)
Theorem arrow_down_empties_the_line (up down : Prompt.KeyEvent) :
  Prompt.domKey up = "ArrowUp" →
  Prompt.domKey down = "ArrowDown" →
  (∀ refs,
      Prompt.history refs ≠ [] →
      Prompt.historyIndex refs = Z.of_nat (length (Prompt.history refs)) →
      (Prompt.onKey down (Prompt.onKey up refs).1).1
      = {| Prompt.input := EmptyString;
           Prompt.history := Prompt.history refs;
           Prompt.historyIndex := Prompt.historyIndex refs |})
  ∧ (∀ draft,
        Prompt.onKey down
          {| Prompt.input := draft; Prompt.history := [];
             Prompt.historyIndex := (-1)%Z |}
        = ({| Prompt.input := EmptyString; Prompt.history := [];
              Prompt.historyIndex := 0%Z |},
           Prompt.clearLine draft))
  ∧ (∀ refs,
        Prompt.historyIndex refs = Z.of_nat (length (Prompt.history refs)) →
        Prompt.onKey down refs = (refs, [])).
Proof.
  intros Hup Hdown. split; [|split].
  - intros refs Hne Hidx.
    assert (0 < length (Prompt.history refs))%nat as Hlen.
    { destruct (Prompt.history refs); [done | simpl; lia]. }
    rewrite (onKey_up up refs Hup) by lia. cbn [fst].
    unfold Prompt.onKey. rewrite Hdown.
    cbn [String.eqb Ascii.eqb Bool.eqb andb Prompt.history
         Prompt.historyIndex Prompt.input fst].
    assert ((Prompt.historyIndex refs - 1
             <? Z.of_nat (length (Prompt.history refs)) - 1)%Z = false) as ->
      by (apply Z.ltb_ge; lia).
    assert ((Prompt.historyIndex refs - 1
             =? Z.of_nat (length (Prompt.history refs)) - 1)%Z = true) as ->
      by (apply Z.eqb_eq; lia).
    cbn [fst]. f_equal. lia.
  - intros draft. unfold Prompt.onKey. rewrite Hdown. reflexivity.
  - intros refs Hidx. unfold Prompt.onKey. rewrite Hdown.
    cbn [String.eqb Ascii.eqb Bool.eqb andb].
    assert ((Prompt.historyIndex refs
             <? Z.of_nat (length (Prompt.history refs)) - 1)%Z = false) as ->
      by (apply Z.ltb_ge; lia).
    assert ((Prompt.historyIndex refs
             =? Z.of_nat (length (Prompt.history refs)) - 1)%Z = false) as ->
      by (apply Z.eqb_neq; lia).
    reflexivity.
Qed.

Lemma arrow_down_empties_the_line_witness :
  (Prompt.onKey (Prompt.named "ArrowDown")
     (Prompt.onKey (Prompt.named "ArrowUp")
        (Prompt.mkRefs "solve 2+" ["help"] 1)).1).1
  = Prompt.mkRefs EmptyString ["help"] 1.
Proof.
  refine (proj1 (arrow_down_empties_the_line (Prompt.named "ArrowUp")
                   (Prompt.named "ArrowDown") eq_refl eq_refl)
            (Prompt.mkRefs "solve 2+" ["help"] 1) _ eq_refl).
  discriminate.
Defined.

Lemma dropLast_snoc (s : string) (c : ascii) :
  Prompt.dropLast (s +:+ JS.str c) = s.
Proof.
  induction s as [|x s IH]; [reflexivity|].
  rewrite append_cons. cbn [Prompt.dropLast]. rewrite IH.
  by destruct s.
Qed.

Lemma length_snoc (s : string) (c : ascii) :
  String.length (s +:+ JS.str c) = S (String.length s).
Proof.
  induction s as [|x s IH]; [reflexivity|].
  rewrite append_cons. cbn [String.length]. by rewrite IH.
Qed.

(** X24.  Typing a character and pressing Backspace leaves the line, the
    history and the index as they were; the screen gets the character,
    then its erasure.  Backspace on an empty line does nothing. *)
Theorem typing_then_backspace (c : ascii) (back : Prompt.KeyEvent) :
  Prompt.domKey back = "Backspace" →
  (∀ refs,
      (Prompt.onKey back (Prompt.onKey (Prompt.typed c) refs).1).1 = refs
      ∧ (Prompt.onKey (Prompt.typed c) refs).2 = [Prompt.Write (JS.str c)]
      ∧ (Prompt.onKey back (Prompt.onKey (Prompt.typed c) refs).1).2
        = [Prompt.Write Prompt.eraseOne])
  ∧ (∀ refs, Prompt.input refs = EmptyString →
             Prompt.onKey back refs = (refs, [])).
Proof.
  intros Hback. split.
  - intros refs.
    assert (Prompt.onKey (Prompt.typed c) refs
            = ({| Prompt.input := Prompt.input refs +:+ JS.str c;
                  Prompt.history := Prompt.history refs;
                  Prompt.historyIndex := Prompt.historyIndex refs |},
               [Prompt.Write (JS.str c)])) as ->.
    { unfold Prompt.onKey, Prompt.typed.
      cbn [Prompt.domKey Prompt.key Prompt.altKey Prompt.ctrlKey
           Prompt.metaKey JS.str String.eqb String.length Nat.eqb negb andb].
      repeat match goal with
             | |- context [Ascii.eqb c ?x] => destruct (Ascii.eqb c x)
             end; reflexivity. }
    unfold Prompt.onKey. rewrite Hback.
    cbn [String.eqb Ascii.eqb Bool.eqb andb fst snd Prompt.input
         Prompt.history Prompt.historyIndex].
    rewrite length_snoc, dropLast_snoc. cbn [Nat.ltb Nat.leb fst snd].
    by destruct refs.
  - intros refs Hempty. unfold Prompt.onKey. rewrite Hback, Hempty.
    reflexivity.
Qed.

Lemma typing_then_backspace_witness :
  (Prompt.onKey (Prompt.named "Backspace")
     (Prompt.onKey (Prompt.typed "x") (Prompt.mkRefs "dra" ["help"] 1)).1).1
  = Prompt.mkRefs "dra" ["help"] 1.
Proof.
  exact (proj1 (proj1 (typing_then_backspace "x" (Prompt.named "Backspace")
                         eq_refl)
                  (Prompt.mkRefs "dra" ["help"] 1))).
Defined.

(** ** The terminal's evaluator: what reaches the engine *)

Lemma isWhiteSpace_lowerChar (c : ascii) :
  JS.isWhiteSpace (JS.lowerChar c) = JS.isWhiteSpace c.
Proof. destruct c as [[] [] [] [] [] [] [] []]; reflexivity. Qed.

Lemma trimStart_toLowerCase (s : string) :
  JS.trimStart (JS.toLowerCase s) = JS.toLowerCase (JS.trimStart s).
Proof.
  induction s as [|c s IH]; [reflexivity|].
  cbn [JS.toLowerCase JS.trimStart]. rewrite isWhiteSpace_lowerChar.
  by destruct (JS.isWhiteSpace c).
Qed.

Lemma trimEnd_toLowerCase (s : string) :
  JS.trimEnd (JS.toLowerCase s) = JS.toLowerCase (JS.trimEnd s).
Proof.
  induction s as [|c s IH]; [reflexivity|].
  cbn [JS.toLowerCase JS.trimEnd].
  rewrite IH, toLowerCase_truthy, isWhiteSpace_lowerChar.
  by destruct (negb (JS.truthy (JS.trimEnd s)) && JS.isWhiteSpace c).
Qed.

Lemma trim_toLowerCase (s : string) :
  JS.trim (JS.toLowerCase s) = JS.toLowerCase (JS.trim s).
Proof.
  unfold JS.trim. by rewrite trimStart_toLowerCase, trimEnd_toLowerCase.
Qed.

Section EvaluatorProperties.

Context (JSValue : Type) (runFunction : string → option JSValue)
        (isNumber isInteger : JSValue → bool)
        (toStr toFixed6 : JSValue → string).

Local Abbreviation evaluate :=
  (Terminal.evaluateMath JSValue runFunction isNumber isInteger toStr
     toFixed6).

(** X25.  [evaluateMath] does not look at the case of the expression nor
    at the whitespace around it; and an expression that is empty or made
    of whitespace only is answered Invalid expression, without the
    engine. *)
Theorem evaluateMath_ignores_case_and_margins (expr : string) :
  evaluate (JS.toLowerCase expr) = evaluate expr
  ∧ evaluate (JS.trim expr) = evaluate expr
  ∧ (JS.allChars JS.isWhiteSpace expr = true →
     evaluate expr = "Invalid expression").
Proof.
  unfold Terminal.evaluateMath. split; [|split].
  - by rewrite trim_toLowerCase, toLowerCase_idempotent.
  - by rewrite trim_idempotent.
  - intros Hblank. by rewrite (trim_whitespace expr Hblank).
Qed.

End EvaluatorProperties.

Lemma evaluateMath_ignores_case_and_margins_witness :
  Terminal.evaluateMath string (λ code, Some code) (λ _, false) (λ _, false)
    id id "   "
  = "Invalid expression".
Proof.
  exact (proj2 (proj2 (evaluateMath_ignores_case_and_margins string
                         (λ code, Some code) (λ _, false) (λ _, false) id id
                         "   "))
           eq_refl).
Defined.

Lemma allChars_impl (p q : ascii → bool) (s : string) :
  (∀ c, p c = true → q c = true) →
  JS.allChars p s = true → JS.allChars q s = true.
Proof.
  intros Hpq. induction s as [|c s IH]; [done|].
  cbn [JS.allChars]. intros [Hc Hs]%andb_true_iff.
  by rewrite (Hpq c Hc), IH.
Qed.

Lemma allChars_trimStart (p : ascii → bool) (s : string) :
  JS.allChars p s = true → JS.allChars p (JS.trimStart s) = true.
Proof.
  induction s as [|c s IH]; [done|].
  cbn [JS.allChars JS.trimStart]. intros [Hc Hs]%andb_true_iff.
  destruct (JS.isWhiteSpace c); [by apply IH|].
  cbn [JS.allChars]. by rewrite Hc, Hs.
Qed.

Lemma allChars_trimEnd (p : ascii → bool) (s : string) :
  JS.allChars p s = true → JS.allChars p (JS.trimEnd s) = true.
Proof.
  induction s as [|c s IH]; [done|].
  cbn [JS.allChars JS.trimEnd]. intros [Hc Hs]%andb_true_iff.
  destruct (negb (JS.truthy (JS.trimEnd s)) && JS.isWhiteSpace c); [done|].
  cbn [JS.allChars]. by rewrite Hc, IH.
Qed.

Lemma allChars_trim (p : ascii → bool) (s : string) :
  JS.allChars p s = true → JS.allChars p (JS.trim s) = true.
Proof. intros Hs. by apply allChars_trimEnd, allChars_trimStart. Qed.

Lemma startsWith_allChars (p : ascii → bool) (w t : string) :
  JS.startsWith w t = true → JS.allChars p t = true →
  JS.allChars p w = true.
Proof.
  revert t. induction w as [|a w IH]; intros [|b t]; try done.
  cbn [JS.startsWith JS.allChars].
  intros [Hab%Ascii.eqb_eq Hw]%andb_true_iff [Hb Ht]%andb_true_iff.
  subst b. by rewrite Hb, (IH t).
Qed.

Lemma startsWith_foreign (p : ascii → bool) (w t : string) :
  JS.allChars p w = false → JS.allChars p t = true →
  JS.startsWith w t = false.
Proof.
  intros Hw Ht. destruct (JS.startsWith w t) eqn:Hstart; [|done].
  by rewrite (startsWith_allChars p w t Hstart Ht) in Hw.
Qed.

Lemma replaceAll_no_match (m : Terminal.Matcher) (p : ascii → bool) :
  (∀ t, JS.allChars p t = true → m t = None) →
  ∀ s, JS.allChars p s = true → Terminal.replaceAll m 0 s = s.
Proof.
  intros Hm s. induction s as [|c s IH]; [done|]. intros Hs.
  cbn [Terminal.replaceAll]. rewrite (Hm _ Hs).
  cbn [JS.allChars] in Hs. apply andb_true_iff in Hs as [_ Hs].
  by rewrite IH.
Qed.

Lemma arithChar_lower (c : ascii) :
  arithChar c = true → JS.lowerChar c = c.
Proof.
  destruct c as [[] [] [] [] [] [] [] []]; cbv; intros; congruence.
Qed.

Lemma arithChar_not_e (c : ascii) :
  arithChar c = true → Ascii.eqb c "e" = false.
Proof.
  destruct c as [[] [] [] [] [] [] [] []]; cbv; intros; congruence.
Qed.

Lemma arithChar_safe (c : ascii) :
  arithChar c = true → Terminal.safeChar c = true.
Proof. unfold arithChar. by intros [? _]%andb_true_iff. Qed.

Lemma toLowerCase_arith (s : string) :
  JS.allChars arithChar s = true → JS.toLowerCase s = s.
Proof.
  induction s as [|c s IH]; [done|].
  cbn [JS.allChars JS.toLowerCase]. intros [Hc Hs]%andb_true_iff.
  by rewrite (arithChar_lower c Hc), IH.
Qed.

Lemma callMatcher_arith (name repl t : string) :
  JS.allChars arithChar (name +:+ "(") = false →
  JS.allChars arithChar t = true → Terminal.callMatcher name repl t = None.
Proof.
  intros Hname Ht. unfold Terminal.callMatcher.
  by rewrite (startsWith_foreign arithChar _ t Hname Ht).
Qed.

Lemma powMatcher_arith (t : string) :
  JS.allChars arithChar t = true → Terminal.powMatcher t = None.
Proof.
  intros Ht. unfold Terminal.powMatcher.
  by rewrite (startsWith_foreign arithChar "pow(" t eq_refl Ht).
Qed.

Lemma wordMatcher_arith (word repl t : string) :
  JS.allChars arithChar word = false →
  JS.allChars arithChar t = true → Terminal.wordMatcher word repl t = None.
Proof.
  intros Hword Ht. unfold Terminal.wordMatcher.
  by rewrite (startsWith_foreign arithChar _ t Hword Ht).
Qed.

Lemma eMatcher_arith (t : string) :
  JS.allChars arithChar t = true → Terminal.eMatcher t = None.
Proof.
  destruct t as [|c t]; [done|]. cbn [JS.allChars Terminal.eMatcher].
  intros [Hc _]%andb_true_iff. by rewrite (arithChar_not_e c Hc).
Qed.

Lemma mathNameMatcher_arith (t : string) :
  JS.allChars arithChar t = true → Terminal.mathNameMatcher t = None.
Proof.
  intros Ht. unfold Terminal.mathNameMatcher.
  by rewrite (startsWith_foreign arithChar "Math." t eq_refl Ht).
Qed.

Lemma substitute_arith (s : string) :
  JS.allChars arithChar s = true → Terminal.substitute s = s.
Proof.
  intros Hs. unfold Terminal.substitute.
  repeat match goal with
         | |- context [Terminal.replaceAll ?m 0 s] =>
             rewrite (replaceAll_no_match m arithChar) by
               (first [ exact Hs
                      | intros t Ht;
                        first [ by apply callMatcher_arith
                              | by apply powMatcher_arith
                              | by apply wordMatcher_arith
                              | by apply eMatcher_arith ] ])
         end.
  reflexivity.
Qed.

Section EvaluatorVerbatim.

Context (JSValue : Type) (runFunction : string → option JSValue)
        (isNumber isInteger : JSValue → bool)
        (toStr toFixed6 : JSValue → string).

(** X26.  An expression written with digits, the signs + - * / ( ) . and
    the comma, the letters a, t, h and whitespace only, and not blank,
    undergoes no substitution and passes the safety test: the engine is
    run on the trimmed text as typed, and its answer (or its failure) is
    what [evaluateMath] returns.  So the words made of a, t and h reach
    the engine as identifiers. *)
Theorem arithmetic_reaches_engine_as_typed (expr : string) :
  JS.allChars arithChar expr = true →
  JS.truthy (JS.trim expr) = true →
  Terminal.evaluateMath JSValue runFunction isNumber isInteger toStr
    toFixed6 expr
  = match runFunction (quoted "use strict" +:+ "; return ("
                       +:+ JS.trim expr +:+ ")") with
    | Some v =>
        Terminal.formatResult JSValue isNumber isInteger toStr toFixed6 v
    | None => "Error: Could not evaluate"
    end.
Proof.
  intros Hexpr Hfull.
  pose proof (allChars_trim arithChar expr Hexpr) as Htrim.
  unfold Terminal.evaluateMath.
  rewrite (toLowerCase_arith _ Htrim), (substitute_arith _ Htrim).
  unfold Terminal.passesSafeTest.
  rewrite (replaceAll_no_match _ arithChar mathNameMatcher_arith _ Htrim).
  by rewrite Hfull, (allChars_impl arithChar _ _ arithChar_safe Htrim).
Qed.

End EvaluatorVerbatim.

Lemma arithmetic_reaches_engine_as_typed_witness :
  Terminal.evaluateMath string
    (λ code, if String.eqb code (quoted "use strict"
                                 +:+ "; return ((2+3)*4 / that)")
             then None else Some code)
    (λ _, false) (λ _, false) id id "  (2+3)*4 / that "
  = "Error: Could not evaluate".
Proof.
  rewrite (arithmetic_reaches_engine_as_typed string _ (λ _, false)
             (λ _, false) id id "  (2+3)*4 / that " eq_refl eq_refl).
  reflexivity.
Defined.

(** ** calcMolarMass: symbols outside the table *)

Lemma formulaMatches_no_capital (s : string) (skip : nat) :
  JS.allChars (λ c, negb (Terminal.isUpper c)) s = true →
  Terminal.formulaMatches skip s = [].
Proof.
  revert skip. induction s as [|c s IH]; intros skip; [done|].
  cbn [JS.allChars Terminal.formulaMatches].
  intros [Hc%negb_true_iff Hs]%andb_true_iff.
  destruct skip; [rewrite Hc|]; by apply IH.
Qed.

Lemma addElement_filter (ms : list (string * string)) (mass : float) :
  fold_left Terminal.addElement ms mass
  = fold_left Terminal.addElement
      (filter (λ m, is_Some (Terminal.ELEMENTS !! JS.toLowerCase m.1)) ms)
      mass.
Proof.
  revert mass. induction ms as [|m ms IH]; intros mass; [done|].
  destruct (Terminal.ELEMENTS !! JS.toLowerCase m.1) as [el|] eqn:Hel.
  - rewrite filter_cons_True by (by rewrite Hel). cbn [fold_left]. apply IH.
  - rewrite filter_cons_False by (rewrite Hel; by intros [? ?]).
    cbn [fold_left]. unfold Terminal.addElement at 2.
    rewrite Hel. apply IH.
Qed.

(** X27.  [calcMolarMass] silently passes over every symbol that is not
    in the table of elements: the mass is the one of the matches whose
    symbol is known.  A formula without a capital letter has no match at
    all, so its mass is 0: the symbols must be typed with their capital
    (h2o weighs nothing). *)
Theorem molar_mass_ignores_unknown_symbols (formula : string) :
  Terminal.calcMolarMass formula
  = fold_left Terminal.addElement
      (filter (λ m, is_Some (Terminal.ELEMENTS !! JS.toLowerCase m.1))
              (Terminal.formulaMatches 0 formula))
      0%float
  ∧ (JS.allChars (λ c, negb (Terminal.isUpper c)) formula = true →
     Terminal.calcMolarMass formula = 0%float).
Proof.
  unfold Terminal.calcMolarMass. split; [apply addElement_filter|].
  intros Hlow. by rewrite (formulaMatches_no_capital formula 0 Hlow).
Qed.

Lemma molar_mass_ignores_unknown_symbols_witness :
  Terminal.calcMolarMass "h2o" = 0%float.
Proof.
  exact (proj2 (molar_mass_ignores_unknown_symbols "h2o") eq_refl).
Defined.
